(** * Excel Analyzer (app2.py): a shallow embedding and its properties

    The program is one Streamlit script.  It loads an API key from a file,
    reads an uploaded spreadsheet into a pandas DataFrame, previews it,
    samples it when it has more than 500 rows, writes it as CSV into a
    prompt, asks the chat-completion service and shows the answer.

    The embedding follows the script top to bottom.  What the script gets
    from outside (the key file, the upload, the widgets, the random
    generator, the remote service, whether [openai.error] can be imported)
    is an explicit environment; what it does to the outside (Streamlit
    calls, log records, the remote request) is a trace of events. *)

From Stdlib Require Import String Ascii DecimalString QArith.
From stdpp Require Import base option list numbers.

Local Open Scope list_scope.

(** ** Text

    A Python [str] is a sequence of Unicode code points. *)

Definition codepoint := N.
Definition str := list codepoint.

(** A string literal of the source that holds ASCII characters only. *)
Definition lit (s : string) : str :=
  List.map N_of_ascii (list_ascii_of_string s).

Definition LF : codepoint := 10%N.
Definition CR : codepoint := 13%N.
Definition COMMA : codepoint := 44%N.
Definition DQUOTE : codepoint := 34%N.

(** [str(i)] for a Python [int]. *)
Definition str_of_int (z : Z) : str :=
  lit (NilZero.string_of_int (Z.to_int z)).

(** [c.isspace()]: the characters [str.strip()] removes when it is called
    without an argument. *)
Definition isspace (c : codepoint) : bool :=
  (((9 <=? c) && (c <=? 13)) || ((28 <=? c) && (c <=? 32))
   || (c =? 133) || (c =? 160) || (c =? 5760)
   || ((8192 <=? c) && (c <=? 8202))
   || (c =? 8232) || (c =? 8233) || (c =? 8239) || (c =? 8287)
   || (c =? 12288))%N.

Fixpoint lstrip (s : str) : str :=
  match s with
  | c :: s' => if isspace c then lstrip s' else s
  | [] => []
  end.

Definition rstrip (s : str) : str := rev (lstrip (rev s)).

(** [s.strip()] *)
Definition strip (s : str) : str := rstrip (lstrip s).

(** ** The table

    A pandas [DataFrame] as the script uses it: the column labels and the
    rows in order.  A cell is what [read_excel] puts there: text, a whole
    number, a truth value, or nothing (NaN).  A cell of another kind (a
    fraction, a date) reaches the CSV writer as the text pandas renders for
    it and is carried here as that text. *)

Inductive cell :=
| CStr (s : str)
| CInt (z : Z)
| CBool (b : bool)
| CBlank.

Record DataFrame := mkDataFrame {
  columns : list str;
  rows : list (list cell)
}.

(** [len(df)] *)
Definition len (df : DataFrame) : nat := length (rows df).

(** [df.head(n)]; the script calls [df.head()], whose default is [n = 5]. *)
Definition head (df : DataFrame) (n : nat) : DataFrame :=
  mkDataFrame (columns df) (take n (rows df)).

Definition head_default : nat := 5.

(** *** Random row selection

    [df.sample(n=500)] draws without replacement and without weights:
    pandas asks numpy for [choice(len(df), size=n, replace=False)], which
    is [permutation(len(df))[:n]], and takes the rows at these positions.
    [permutation] shuffles [arange] in place, from the last position down,
    swapping position [i] with a position drawn in [0..i].  The state of
    numpy's global generator is the stream [rng]: its [k]-th value, reduced
    into the range asked for, is the [k]-th position drawn. *)

Definition swap {A} (i j : nat) (x : list A) : list A :=
  match x !! i, x !! j with
  | Some a, Some b => <[i:=b]> (<[j:=a]> x)
  | _, _ => x
  end.

Definition random_interval (rng : nat -> nat) (k i : nat) : nat :=
  rng k mod (S i).

Fixpoint shuffle_from {A} (rng : nat -> nat) (k i : nat) (x : list A) : list A :=
  match i with
  | O => x
  | S i' => shuffle_from rng (S k) i' (swap i (random_interval rng k i) x)
  end.

Definition shuffle {A} (rng : nat -> nat) (x : list A) : list A :=
  shuffle_from rng 0 (length x - 1) x.

Definition permutation (rng : nat -> nat) (n : nat) : list nat :=
  shuffle rng (seq 0 n).

Definition choice (rng : nat -> nat) (pop size : nat) : list nat :=
  take size (permutation rng pop).

(** [df.take(locs)]: the rows at the given positions, in that order. *)
Definition take_rows (df : DataFrame) (locs : list nat) : DataFrame :=
  mkDataFrame (columns df) (omap (fun i => rows df !! i) locs).

Definition sample (rng : nat -> nat) (df : DataFrame) (n : nat) : DataFrame :=
  take_rows df (choice rng (len df) n).

(** *** Writing CSV

    [df.to_csv(buf, index=False)] hands the column labels and then every
    row to [csv.writer] with the default dialect: the comma as delimiter, the
    double quote as quote character, minimal quoting, quotes doubled, and pandas' line
    terminator [os.linesep].  Before that each cell becomes text: a missing
    value the empty text, anything else its [str].

    The writer, as CPython up to 3.12 has it, quotes a field when it holds
    the delimiter, the quote character or a character of the line
    terminator; a record that would be empty although it has a field (one
    empty field) is written as two quotes. *)

Definition cell_text (c : cell) : str :=
  match c with
  | CStr s => s
  | CInt z => str_of_int z
  | CBool b => lit (if b then "True" else "False")
  | CBlank => []
  end.

Definition is_special (lineterminator : str) (c : codepoint) : bool :=
  (c =? COMMA)%N || (c =? DQUOTE)%N || bool_decide (c ∈ lineterminator).

Definition needs_quotes (lineterminator : str) (field : str) : bool :=
  existsb (is_special lineterminator) field.

Fixpoint double_quotes (field : str) : str :=
  match field with
  | [] => []
  | c :: s => if (c =? DQUOTE)%N then DQUOTE :: DQUOTE :: double_quotes s
              else c :: double_quotes s
  end.

Definition write_field (lineterminator : str) (field : str) : str :=
  if needs_quotes lineterminator field
  then DQUOTE :: double_quotes field ++ [DQUOTE]
  else field.

Fixpoint join_fields (lineterminator : str) (fields : list str) : str :=
  match fields with
  | [] => []
  | [f] => write_field lineterminator f
  | f :: fs => write_field lineterminator f ++ COMMA :: join_fields lineterminator fs
  end.

Definition writerow (lineterminator : str) (fields : list str) : str :=
  match fields, join_fields lineterminator fields with
  | _ :: _, [] => [DQUOTE; DQUOTE] ++ lineterminator
  | _, rec => rec ++ lineterminator
  end.

Definition header_line (lineterminator : str) (df : DataFrame) : str :=
  writerow lineterminator (columns df).

Definition row_line (lineterminator : str) (r : list cell) : str :=
  writerow lineterminator (map cell_text r).

Definition to_csv (lineterminator : str) (df : DataFrame) : str :=
  header_line lineterminator df ++ concat (map (row_line lineterminator) (rows df)).

(** ** The prompt (lines 95-100) *)

Definition preamble : str :=
  lit "You are an analytical assistant. Based on the following data and questions, provide comprehensive findings."
  ++ [LF; LF].

Definition prompt (csv_string questions : str) : str :=
  preamble
  ++ (lit "Data:" ++ [LF] ++ csv_string ++ [LF; LF])
  ++ (lit "Questions:" ++ [LF] ++ questions ++ [LF; LF])
  ++ lit "Findings:".

(** ** Exceptions

    Every failure the script can meet is an instance of [Exception]; an
    exception carries its class and its text [str(e)].  The classes of
    [openai.error] all derive from [openai.error.OpenAIError]. *)

Inductive openai_error :=
| OpenAIError_base
| APIError
| TryAgain
| Timeout
| APIConnectionError
| InvalidRequestError
| AuthenticationError
| PermissionError
| RateLimitError
| ServiceUnavailableError
| InvalidAPIType
| SignatureVerificationError.

Inductive exc_class :=
| exc_openai (k : openai_error)
| exc_FileNotFoundError
| exc_KeyError
| exc_IndexError
| exc_TypeError
| exc_AttributeError
| exc_other (name : str).

Record exn := mkExn {
  exc_type : exc_class;
  exc_str : str
}.

(** The classes the script names in an [except] clause. *)
Inductive except_target :=
| T_OpenAIError
| T_FileNotFoundError
| T_Exception.

Definition isinstance (e : exn) (t : except_target) : bool :=
  match t, exc_type e with
  | T_Exception, _ => true
  | T_OpenAIError, exc_openai _ => true
  | T_FileNotFoundError, exc_FileNotFoundError => true
  | _, _ => false
  end.

(** Lines 14-18: the name [OpenAIError] is the class of [openai.error] when
    the import succeeds and [Exception] when it does not. *)
Definition OpenAIError (import_ok : bool) : except_target :=
  if import_ok then T_OpenAIError else T_Exception.

(** ** Python values of the response

    The response of the service is a JSON document. *)

#[local] Set Warnings "-register-all".

Inductive pyval :=
| PNone
| PBool (b : bool)
| PInt (z : Z)
| PStr (s : str)
| PList (l : list pyval)
| PDict (d : list (str * pyval)).

Inductive key :=
| KStr (s : str)
| KInt (i : Z).

Fixpoint dict_get (d : list (str * pyval)) (k : str) : option pyval :=
  match d with
  | [] => None
  | (k', v) :: d' => if bool_decide (k' = k) then Some v else dict_get d' k
  end.

(** [l[i]] for a sequence, negative positions counted from the end. *)
Definition seq_index {A} (l : list A) (i : Z) : option A :=
  if (i <? 0)%Z
  then (if (- i <=? Z.of_nat (length l))%Z
        then l !! Z.to_nat (Z.of_nat (length l) + i) else None)
  else l !! Z.to_nat i.

Definition type_name (v : pyval) : str :=
  match v with
  | PNone => lit "NoneType"
  | PBool _ => lit "bool"
  | PInt _ => lit "int"
  | PStr _ => lit "str"
  | PList _ => lit "list"
  | PDict _ => lit "dict"
  end.

Definition quoted (s : str) : str := lit "'" ++ s ++ lit "'".

(** [v[k]] *)
Definition getitem (v : pyval) (k : key) : exn + pyval :=
  match v, k with
  | PDict d, KStr s =>
      match dict_get d s with
      | Some x => inr x
      | None => inl (mkExn exc_KeyError (quoted s))
      end
  | PDict d, KInt i => inl (mkExn exc_KeyError (str_of_int i))
  | PList l, KInt i =>
      match seq_index l i with
      | Some x => inr x
      | None => inl (mkExn exc_IndexError (lit "list index out of range"))
      end
  | PList _, KStr _ =>
      inl (mkExn exc_TypeError (lit "list indices must be integers or slices, not str"))
  | PStr s, KInt i =>
      match seq_index s i with
      | Some c => inr (PStr [c])
      | None => inl (mkExn exc_IndexError (lit "string index out of range"))
      end
  | PStr _, KStr _ =>
      inl (mkExn exc_TypeError (lit "string indices must be integers, not 'str'"))
  | _, _ =>
      inl (mkExn exc_TypeError (quoted (type_name v) ++ lit " object is not subscriptable"))
  end.

(** [v.strip()] *)
Definition strip_method (v : pyval) : exn + str :=
  match v with
  | PStr s => inr (strip s)
  | _ => inl (mkExn exc_AttributeError
                (quoted (type_name v) ++ lit " object has no attribute 'strip'"))
  end.

(** ** The request (lines 103-111) *)

Record message := mkMessage {
  role : str;
  content : str
}.

Record request := mkRequest {
  model : str;
  messages : list message;
  max_tokens : Z;
  temperature : Q
}.

(** ** Effects

    What the script does to the outside, in order. *)

Inductive event :=
| st_error (body : str)
| st_set_page_config (page_title layout : str)
| st_title (body : str)
| st_file_uploader (label : str)
| st_success (body : str)
| st_dataframe (data : DataFrame)
| st_header (body : str)
| st_write (body : str)
| st_text_area (label value : str)
| st_button (label : str)
| st_spinner (text : str)
| st_warning (body : str)
| st_info (body : str)
| st_markdown (body : str)
| logger_error (msg : str)
| ChatCompletion_create (api_key : str) (req : request).

(** A piece of the script ends by returning, by raising an exception, or by
    [st.stop()], which ends the run of the script; no [except Exception]
    clause catches the latter. *)
Inductive outcome (A : Type) :=
| Return (a : A)
| Raise (e : exn)
| Stop.
Arguments Return {A} a.
Arguments Raise {A} e.
Arguments Stop {A}.

Record M (A : Type) := mkM {
  events : list event;
  result : outcome A
}.
Arguments mkM {A} events result.
Arguments events {A} m.
Arguments result {A} m.

Definition M_bind_def {A B} (k : A -> M B) (m : M A) : M B :=
  match result m with
  | Return a => mkM (events m ++ events (k a)) (result (k a))
  | Raise e => mkM (events m) (Raise e)
  | Stop => mkM (events m) Stop
  end.

#[global] Instance M_ret : MRet M := fun A a => mkM [] (Return a).
#[global] Instance M_bind : MBind M := fun A B k m => M_bind_def k m.

Definition emit (ev : event) : M unit := mkM [ev] (Return tt).
Definition raise {A} (e : exn) : M A := mkM [] (Raise e).
Definition st_stop {A} : M A := mkM [] Stop.

(** The result of a library call that may raise. *)
Definition lift {A} (r : exn + A) : M A :=
  match r with
  | inl e => raise e
  | inr a => mret a
  end.

(** [try: body except T1 as e: h1 except T2 as e: h2]: the first clause
    whose class the exception is an instance of handles it. *)
Fixpoint dispatch {A} (e : exn) (handlers : list (except_target * (exn -> M A))) : M A :=
  match handlers with
  | [] => raise e
  | (t, h) :: hs => if isinstance e t then h e else dispatch e hs
  end.

Definition try_except {A} (body : M A) (handlers : list (except_target * (exn -> M A))) : M A :=
  match result body with
  | Raise e =>
      mkM (events body ++ events (dispatch e handlers)) (result (dispatch e handlers))
  | _ => body
  end.

(** ** The environment of one run of the script *)

Record env := mkEnv {
  (** whether [from openai.error import OpenAIError] succeeds *)
  import_ok : bool;
  (** [open(path, 'r').read()] *)
  read_file : str -> exn + str;
  (** what [st.file_uploader] returns: the uploaded bytes, if any *)
  uploaded_file : option (list N);
  (** [pd.read_excel] on uploaded bytes *)
  read_excel : list N -> exn + DataFrame;
  (** the content of the questions box, as [st.text_area] returns it *)
  text_area : str;
  (** whether the button was clicked *)
  button : bool;
  (** the draws of numpy's global generator *)
  rng : nat -> nat;
  (** [os.linesep] *)
  linesep : str;
  (** [openai.ChatCompletion.create] under a given [openai.api_key] *)
  create : str -> request -> exn + pyval;
  (** what a Streamlit call of lines 67-80 raises instead of showing its
      element, if it does: [st.dataframe] raises for a table that it cannot
      convert *)
  st_raises : event -> option exn
}.

(** ** The script *)

Definition CROSS : str := [10060%N].

(** Lines 21-31. *)
Definition load_api_key (E : env) (file_path : str) : M str :=
  try_except
    (key ← lift (read_file E file_path);
     mret (strip key))
    [ (T_FileNotFoundError, fun e =>
         emit (st_error (lit "API key file '" ++ file_path
                         ++ lit "' not found. Please ensure it exists.")) ;;
         st_stop);
      (T_Exception, fun e =>
         emit (st_error (lit "An error occurred while reading the API key file: "
                         ++ exc_str e)) ;;
         st_stop) ].

Definition default_questions : str :=
  lit "1. Provide a summary of the data." ++ [LF]
  ++ lit "2. Identify any trends or patterns." ++ [LF]
  ++ lit "3. Highlight any anomalies.".

Definition system_message : message :=
  mkMessage (lit "system") (lit "You are a helpful assistant.").

Definition chat_request (p : str) : request :=
  mkRequest (lit "gpt-4")
            [system_message; mkMessage (lit "user") p]
            2000
            (6 # 10).

(** Lines 83-87: the table the prompt is built from. *)
Definition df_sampled (E : env) (df : DataFrame) : M DataFrame :=
  if 500 <? len df
  then
    let s := sample (rng E) df 500 in
    emit (st_warning ([9888%N; 65039%N]
                      ++ lit " Data is large! using a sample of 500 rows for analysis.")) ;;
    mret s
  else mret df.

(** A step of an expression that may raise. *)
Definition and_then {A B} (r : exn + A) (k : A -> exn + B) : exn + B :=
  match r with
  | inl e => inl e
  | inr a => k a
  end.

(** Line 114: [response['choices'][0]['message']['content'].strip()]. *)
Definition first_choice_text (response : pyval) : exn + str :=
  and_then (getitem response (KStr (lit "choices"))) (fun choices =>
  and_then (getitem choices (KInt 0)) (fun choice0 =>
  and_then (getitem choice0 (KStr (lit "message"))) (fun msg =>
  and_then (getitem msg (KStr (lit "content"))) (fun text =>
  strip_method text)))).

(** Lines 103-114: the request and the reading of the response. *)
Definition findings (E : env) (api_key p : str) : M str :=
  emit (ChatCompletion_create api_key (chat_request p)) ;;
  response ← lift (create E api_key (chat_request p));
  lift (first_choice_text response).

(** Lines 81-117: the body of the inner [try]. *)
Definition analysis_body (E : env) (api_key : str) (df : DataFrame) (questions : str) : M unit :=
  sampled ← df_sampled E df;
  f ← findings E api_key (prompt (to_csv (linesep E) sampled) questions);
  emit (st_header ([128269%N] ++ lit " Findings")) ;;
  emit (st_write f).

(** Lines 119-121 and 122-124: the two [except] clauses of the inner [try]. *)
Definition on_OpenAIError (e : exn) : M unit :=
  emit (logger_error (lit "OpenAI API error: " ++ exc_str e)) ;;
  emit (st_error (CROSS ++ lit " OpenAI API returned an error: " ++ exc_str e)).

Definition on_Exception (e : exn) : M unit :=
  emit (logger_error (lit "Unexpected error: " ++ exc_str e)) ;;
  emit (st_error (CROSS ++ lit " An unexpected error occurred: " ++ exc_str e)).

(** Lines 81-124: the inner [try] with its two [except] clauses. *)
Definition analysis (E : env) (api_key : str) (df : DataFrame) (questions : str) : M unit :=
  try_except (analysis_body E api_key df questions)
    [ (OpenAIError (import_ok E), on_OpenAIError);
      (T_Exception, on_Exception) ].

(** A Streamlit call of lines 67-80.  These calls run inside the outer
    [try] and outside the inner one: when one of them raises, nothing is
    shown for it and the exception goes to the clause of line 126.  The
    calls inside the inner [try] and in the [except] clauses show a plain
    text and are taken to return. *)
Definition render (E : env) (ev : event) : M unit :=
  match st_raises E ev with
  | Some e => raise e
  | None => emit ev
  end.

(** Lines 64-128: what happens with an uploaded file. *)
Definition uploaded (E : env) (api_key : str) (file : list N) : M unit :=
  try_except
    (df ← lift (read_excel E file);
     render E (st_success ([9989%N] ++ lit " Excel file successfully uploaded and read!")) ;;
     render E (st_dataframe (head df head_default)) ;;
     render E (st_header ([128221%N] ++ lit " Define Your Questions")) ;;
     render E (st_write (lit "Enter the questions you want ChatGPT to analyze based on the Excel data.")) ;;
     render E (st_text_area (lit "Questions") default_questions) ;;
     let questions := text_area E in
     render E (st_button (lit "Analyze with ChatGPT")) ;;
     if button E
     then
       render E (st_spinner ([128269%N] ++ lit " Processing...")) ;;
       analysis E api_key df questions
     else mret tt)
    [ (T_Exception, fun e =>
         emit (logger_error (lit "Error reading the Excel file: " ++ exc_str e)) ;;
         emit (st_error (CROSS ++ lit " Error reading the Excel file: " ++ exc_str e))) ].

Definition footer : str :=
  [LF] ++ lit "    <div style=" ++ [DQUOTE] ++ lit "text-align: center;" ++ [DQUOTE] ++ lit ">" ++ [LF]
  ++ lit "        <p>" ++ [169%N] ++ lit " 2024 Excel Analyzer App. Powered by <a href="
  ++ [DQUOTE] ++ lit "https://openai.com/" ++ [DQUOTE] ++ lit " target="
  ++ [DQUOTE] ++ lit "_blank" ++ [DQUOTE] ++ lit ">OpenAI</a> and <a href="
  ++ [DQUOTE] ++ lit "https://streamlit.io/" ++ [DQUOTE] ++ lit " target="
  ++ [DQUOTE] ++ lit "_blank" ++ [DQUOTE] ++ lit ">Streamlit</a>.</p>" ++ [LF]
  ++ lit "    </div>" ++ [LF] ++ lit "    ".

(** The whole script, lines 21-141. *)
Definition script (E : env) : M unit :=
  openai_api_key ← load_api_key E (lit "api_key.txt");
  emit (st_set_page_config (lit "Excel Analyzer with ChatGPT") (lit "wide")) ;;
  emit (st_title ([128202%N] ++ lit " Excel Analyzer with ChatGPT")) ;;
  emit (st_file_uploader (lit "Upload your Excel file")) ;;
  match uploaded_file E with
  | Some file => uploaded E openai_api_key file
  | None => emit (st_info ([128194%N] ++ lit " Awaiting Excel file upload."))
  end ;;
  emit (st_markdown (lit "---")) ;;
  emit (st_markdown footer).

(** ** Reading delimited text back

    The reading side of the same dialect, for the round trip the
    specification asks for: the text is split into records at a line feed,
    a carriage return or the pair of them; a field that starts with the
    quote character runs to the closing quote, a doubled quote inside it
    standing for one; an empty line is a record without fields.  This is
    what [csv.reader] does with its default dialect on text opened with
    [newline=''].  The script itself never reads the text back. *)

Inductive pstate :=
| START_RECORD
| START_FIELD
| IN_FIELD
| IN_QUOTED_FIELD
| QUOTE_IN_QUOTED_FIELD
| AFTER_CR.

Inductive cclass := cc_lf | cc_cr | cc_delim | cc_quote | cc_other.

Definition classify (c : codepoint) : cclass :=
  if (c =? LF)%N then cc_lf
  else if (c =? CR)%N then cc_cr
  else if (c =? COMMA)%N then cc_delim
  else if (c =? DQUOTE)%N then cc_quote
  else cc_other.

(** The reader: its state, the field being read (last character first),
    the fields of the record being read (last field first) and the records
    read so far (last record first). *)
Record reader := mkReader {
  state : pstate;
  field : str;
  fields : list str;
  records : list (list str)
}.

Definition end_record (st : pstate) (fld : str) (flds : list str)
    (recs : list (list str)) : reader :=
  mkReader st [] [] (rev (rev fld :: flds) :: recs).

Definition feed_start_field (c : codepoint) (fld : str) (flds : list str)
    (recs : list (list str)) : reader :=
  match classify c with
  | cc_lf => end_record START_RECORD fld flds recs
  | cc_cr => end_record AFTER_CR fld flds recs
  | cc_quote => mkReader IN_QUOTED_FIELD fld flds recs
  | cc_delim => mkReader START_FIELD [] (rev fld :: flds) recs
  | cc_other => mkReader IN_FIELD (c :: fld) flds recs
  end.

Definition feed_start_record (c : codepoint) (fld : str) (flds : list str)
    (recs : list (list str)) : reader :=
  match classify c with
  | cc_lf => mkReader START_RECORD [] [] ([] :: recs)
  | cc_cr => mkReader AFTER_CR [] [] ([] :: recs)
  | _ => feed_start_field c fld flds recs
  end.

Definition feed (r : reader) (c : codepoint) : reader :=
  let '(mkReader st fld flds recs) := r in
  match st with
  | START_RECORD => feed_start_record c fld flds recs
  | AFTER_CR =>
      match classify c with
      | cc_lf => mkReader START_RECORD fld flds recs
      | _ => feed_start_record c fld flds recs
      end
  | START_FIELD => feed_start_field c fld flds recs
  | IN_FIELD =>
      match classify c with
      | cc_lf => end_record START_RECORD fld flds recs
      | cc_cr => end_record AFTER_CR fld flds recs
      | cc_delim => mkReader START_FIELD [] (rev fld :: flds) recs
      | _ => mkReader IN_FIELD (c :: fld) flds recs
      end
  | IN_QUOTED_FIELD =>
      match classify c with
      | cc_quote => mkReader QUOTE_IN_QUOTED_FIELD fld flds recs
      | _ => mkReader IN_QUOTED_FIELD (c :: fld) flds recs
      end
  | QUOTE_IN_QUOTED_FIELD =>
      match classify c with
      | cc_quote => mkReader IN_QUOTED_FIELD (c :: fld) flds recs
      | cc_delim => mkReader START_FIELD [] (rev fld :: flds) recs
      | cc_lf => end_record START_RECORD fld flds recs
      | cc_cr => end_record AFTER_CR fld flds recs
      | cc_other => mkReader IN_FIELD (c :: fld) flds recs
      end
  end.

(** The end of the text closes a record that is still open. *)
Definition finish (r : reader) : list (list str) :=
  match state r with
  | START_RECORD | AFTER_CR => rev (records r)
  | _ => rev (rev (rev (field r) :: fields r) :: records r)
  end.

Definition parse_csv (text : str) : list (list str) :=
  finish (fold_left feed text (mkReader START_RECORD [] [] [])).

(** The cells of a table as the text [to_csv] writes for them, the column
    labels first. *)
Definition cell_values (df : DataFrame) : list (list str) :=
  columns df :: map (map cell_text) (rows df).

(** A text that the writer may leave without quotes: a carriage return in
    it is a character of the line terminator. *)
Definition cr_quoted (lineterminator f : str) : Prop :=
  CR ∈ f -> CR ∈ lineterminator.

(** The state of the reader after a field as the writer wrote it. *)
Definition after_field (lineterminator f : str) : pstate :=
  if needs_quotes lineterminator f then QUOTE_IN_QUOTED_FIELD
  else match f with [] => START_FIELD | _ => IN_FIELD end.

(** A text whose carriage returns the writer protects: if it holds one,
    it is a text that the writer puts between quotes. *)
Definition quoted_if_cr (lineterminator f : str) : Prop :=
  CR ∈ f -> needs_quotes lineterminator f = true.

(** ** The fields of one record

    What one written record stands for, the line terminator taken off: the
    text is cut at the commas outside quotes; a piece between quotes stands
    for what is between them, a doubled quote for one quote; the empty text
    is the record without fields. *)

Inductive fstate :=
| FIELD_START
| FIELD_PLAIN
| FIELD_QUOTED
| FIELD_QUOTE_SEEN.

(** The state, the field being read (last character first) and the fields
    read so far (last field first). *)
Record splitter := mkSplitter {
  sp_state : fstate;
  sp_field : str;
  sp_fields : list str
}.

Definition split_step (s : splitter) (c : codepoint) : splitter :=
  let '(mkSplitter st fld flds) := s in
  match st with
  | FIELD_START =>
      if (c =? DQUOTE)%N then mkSplitter FIELD_QUOTED fld flds
      else if (c =? COMMA)%N then mkSplitter FIELD_START [] (rev fld :: flds)
      else mkSplitter FIELD_PLAIN (c :: fld) flds
  | FIELD_PLAIN =>
      if (c =? COMMA)%N then mkSplitter FIELD_START [] (rev fld :: flds)
      else mkSplitter FIELD_PLAIN (c :: fld) flds
  | FIELD_QUOTED =>
      if (c =? DQUOTE)%N then mkSplitter FIELD_QUOTE_SEEN fld flds
      else mkSplitter FIELD_QUOTED (c :: fld) flds
  | FIELD_QUOTE_SEEN =>
      if (c =? DQUOTE)%N then mkSplitter FIELD_QUOTED (c :: fld) flds
      else if (c =? COMMA)%N then mkSplitter FIELD_START [] (rev fld :: flds)
      else mkSplitter FIELD_PLAIN (c :: fld) flds
  end.

Definition record_fields (text : str) : list str :=
  match text with
  | [] => []
  | _ :: _ =>
      let s := fold_left split_step text (mkSplitter FIELD_START [] []) in
      rev (rev (sp_field s) :: sp_fields s)
  end.

(** The state of the splitter after a field as the writer wrote it. *)
Definition after_written (lineterminator f : str) : fstate :=
  if needs_quotes lineterminator f then FIELD_QUOTE_SEEN
  else match f with [] => FIELD_START | _ => FIELD_PLAIN end.

(** ** The completion call as a contract

    The specification describes lines 103-124 as a function that returns a
    success or a classified failure.  The failure kinds are those of its
    taxonomy; in the script the kind of a failure is the [except] clause
    that handles it. *)

Inductive except_clause :=
| clause_OpenAIError
| clause_Exception.

Definition handling_clause (import_ok : bool) (e : exn) : except_clause :=
  if isinstance e (OpenAIError import_ok) then clause_OpenAIError
  else clause_Exception.

Definition clause_handler (c : except_clause) : exn -> M unit :=
  match c with
  | clause_OpenAIError => on_OpenAIError
  | clause_Exception => on_Exception
  end.

Inductive failure_kind :=
| ServiceError
| UnexpectedError
| EmptyResponse.

Definition reported_kind (c : except_clause) : failure_kind :=
  match c with
  | clause_OpenAIError => ServiceError
  | clause_Exception => UnexpectedError
  end.

Inductive CompletionResult :=
| Success (text : str)
| Failure (kind : failure_kind) (detail : str).

(** The outcome of lines 103-114 as such a result: the text on success,
    and for an exception the kind of the clause that handles it together
    with the text of the exception.  No clause reports [EmptyResponse]. *)
Definition complete (E : env) (api_key p : str) : option CompletionResult :=
  match result (findings E api_key p) with
  | Return text => Some (Success text)
  | Raise e => Some (Failure (reported_kind (handling_clause (import_ok E) e)) (exc_str e))
  | Stop => None
  end.

(** An expression that may raise, as the end of a piece of the script. *)
Definition outcome_of {A} (r : exn + A) : outcome A :=
  match r with
  | inl e => Raise e
  | inr a => Return a
  end.

(** The table the prompt of an analysis is built from, and that prompt. *)
Definition sampled_table (E : env) (df : DataFrame) : DataFrame :=
  if 500 <? len df then sample (rng E) df 500 else df.

Definition analysis_prompt (E : env) (df : DataFrame) (q : str) : str :=
  prompt (to_csv (linesep E) (sampled_table E df)) q.

(** The requests a trace holds. *)
Definition requests (t : list event) : list request :=
  omap (fun ev => match ev with ChatCompletion_create _ r => Some r | _ => None end) t.

(** ** Sample inputs *)

Definition demo_table : DataFrame :=
  mkDataFrame [lit "item"; lit "qty"]
              [[CStr (lit "pen"); CInt 3]; [CStr (lit "ink"); CBlank]].

(** A table of 501 rows with one column. *)
Definition big_table : DataFrame :=
  mkDataFrame [lit "n"] (map (fun i => [CInt (Z.of_nat i)]) (seq 0 501)).

Definition choice_with (text : str) : pyval :=
  PDict [(lit "message", PDict [(lit "role", PStr (lit "assistant"));
                                (lit "content", PStr text)])].

Definition response_with (choices : list pyval) : pyval :=
  PDict [(lit "id", PStr (lit "chatcmpl-1")); (lit "choices", PList choices)].

(** A run on a POSIX system in which the key file reads as [key_file], the
    upload parses to [df], every element is shown, the button is clicked
    and the service answers [answer]. *)
Definition demo_env (ok : bool) (key_file : exn + str) (df : DataFrame)
    (answer : exn + pyval) : env :=
  mkEnv ok (fun _ => key_file) (Some []) (fun _ => inr df)
        (lit "Summarize.") true (fun k => 3 * k + 1) [LF] (fun _ _ => answer)
        (fun _ => None).

Definition demo_key_file : str := lit " sk-test" ++ [LF].

(** The same run with the error classes imported, for an answer of the
    service. *)
Definition env_answer (answer : exn + pyval) : env :=
  demo_env true (inr demo_key_file) demo_table answer.

(** The same run after the import of [openai.error] failed. *)
Definition env_fallback (answer : exn + pyval) : env :=
  demo_env false (inr demo_key_file) demo_table answer.

Definition no_such_file : exn :=
  mkExn exc_FileNotFoundError
        (lit "[Errno 2] No such file or directory: 'api_key.txt'").

Definition env_missing_key : env :=
  demo_env true (inl no_such_file) demo_table (inr (response_with [])).

Definition env_blank_key : env :=
  demo_env true (inr [32%N; 9%N; LF]) demo_table (inr (response_with [])).

Definition auth_error : exn :=
  mkExn (exc_openai AuthenticationError) (lit "Incorrect API key provided").

Definition bad_zip : exn :=
  mkExn (exc_other (lit "BadZipFile")) (lit "File is not a zip file").

(** Runs in which the key file is read: one whose upload cannot be parsed,
    one without an upload, and one in which the button is not clicked. *)
Definition env_unreadable : env :=
  mkEnv true (fun _ => inr demo_key_file) (Some [80%N; 75%N]) (fun _ => inl bad_zip)
        default_questions true (fun k => k) [LF] (fun _ _ => inr (response_with []))
        (fun _ => None).

Definition env_no_upload : env :=
  mkEnv true (fun _ => inr demo_key_file) None (fun _ => inr demo_table)
        default_questions false (fun k => k) [LF] (fun _ _ => inr (response_with []))
        (fun _ => None).

Definition env_idle : env :=
  mkEnv true (fun _ => inr demo_key_file) (Some []) (fun _ => inr demo_table)
        default_questions false (fun k => k) [LF] (fun _ _ => inr (response_with []))
        (fun _ => None).

(** A table of seven rows, and a run in which it is parsed and shown. *)
Definition week_table : DataFrame :=
  mkDataFrame [lit "day"; lit "n"]
              (map (fun i => [CStr (lit "d"); CInt (Z.of_nat i)]) (seq 1 7)).

Definition env_week : env :=
  demo_env true (inr demo_key_file) week_table
           (inr (response_with [choice_with (lit "ok")])).

(** A run in which the table is parsed but [st.dataframe] raises for its
    preview. *)
Definition arrow_error : exn :=
  mkExn (exc_other (lit "ArrowInvalid")) (lit "Could not convert column to Arrow").

Definition env_unshowable : env :=
  mkEnv true (fun _ => inr demo_key_file) (Some []) (fun _ => inr demo_table)
        (lit "Summarize.") true (fun k => k) [LF]
        (fun _ _ => inr (response_with [choice_with (lit "ok")]))
        (fun ev => match ev with st_dataframe _ => Some arrow_error | _ => None end).

(** ** Parts of a trace

    What the script shows before the upload is looked at, what it shows
    for a table it could read, and what it shows last. *)

Definition page_events : list event :=
  [st_set_page_config (lit "Excel Analyzer with ChatGPT") (lit "wide");
   st_title ([128202%N] ++ lit " Excel Analyzer with ChatGPT");
   st_file_uploader (lit "Upload your Excel file")].

Definition upload_events (df : DataFrame) : list event :=
  [st_success ([9989%N] ++ lit " Excel file successfully uploaded and read!");
   st_dataframe (head df head_default);
   st_header ([128221%N] ++ lit " Define Your Questions");
   st_write (lit "Enter the questions you want ChatGPT to analyze based on the Excel data.");
   st_text_area (lit "Questions") default_questions;
   st_button (lit "Analyze with ChatGPT")].

Definition footer_events : list event :=
  [st_markdown (lit "---"); st_markdown footer].

Definition spinner_event : event :=
  st_spinner ([128269%N] ++ lit " Processing...").

(** What the clause of line 126 logs and shows for an exception. *)
Definition excel_report (e : exn) : list event :=
  [logger_error (lit "Error reading the Excel file: " ++ exc_str e);
   st_error (CROSS ++ lit " Error reading the Excel file: " ++ exc_str e)].

(** Of a sequence of Streamlit calls of lines 67-80: the exception of the
    first call that raises, if one does, and the elements shown before it. *)
Fixpoint first_raise (E : env) (evs : list event) : option exn :=
  match evs with
  | [] => None
  | ev :: evs' =>
      match st_raises E ev with
      | Some e => Some e
      | None => first_raise E evs'
      end
  end.

Fixpoint rendered (E : env) (evs : list event) : list event :=
  match evs with
  | [] => []
  | ev :: evs' =>
      match st_raises E ev with
      | Some _ => []
      | None => ev :: rendered E evs'
      end
  end.

(** The calls of the service a trace holds, each with the key it was made
    under. *)
Definition calls (t : list event) : list (str * request) :=
  omap (fun ev => match ev with
                  | ChatCompletion_create k r => Some (k, r)
                  | _ => None
                  end) t.

(** The error messages a trace shows, and the error records it logs. *)
Definition shown_errors (t : list event) : list str :=
  omap (fun ev => match ev with st_error m => Some m | _ => None end) t.

Definition logged_errors (t : list event) : list str :=
  omap (fun ev => match ev with logger_error m => Some m | _ => None end) t.

(** * Properties *)

Arguments lit : simpl never.
Arguments isinstance : simpl never.
Arguments findings : simpl never.
Arguments df_sampled : simpl never.
Arguments analysis_body : simpl never.
Arguments analysis : simpl never.
Arguments prompt : simpl never.
Arguments to_csv : simpl never.
Arguments sample : simpl never.
Arguments strip : simpl never.
Arguments uploaded : simpl never.

(** ** The definitions on small inputs *)

Example strip_example :
  strip (lit "  sk-abc " ++ [LF]) = lit "sk-abc".
Proof. reflexivity. Qed.

Example str_of_int_example : str_of_int (-42) = lit "-42".
Proof. reflexivity. Qed.

Example permutation_example :
  permutation (fun k => 7 * k + 3) 6 = [2; 5; 4; 1; 0; 3].
Proof. reflexivity. Qed.

Example to_csv_example :
  to_csv [LF] (mkDataFrame [lit "name"; lit "n"]
                 [[CStr (lit "a,b"); CInt 3]; [CStr (lit "q") ; CBlank]])
  = lit "name,n" ++ [LF] ++ [DQUOTE] ++ lit "a,b" ++ [DQUOTE] ++ lit ",3" ++ [LF]
    ++ lit "q," ++ [LF].
Proof. reflexivity. Qed.

Example script_end_to_end :
  let E := env_answer (inr (response_with [choice_with ([LF] ++ lit "Summary text. ")])) in
  result (script E) = Return tt
  /\ requests (events (script E))
     = [chat_request (analysis_prompt E demo_table (lit "Summarize."))]
  /\ List.last (events (uploaded E (lit "sk-test") [])) (st_info [])
     = st_write (lit "Summary text.").
Proof. repeat split. Qed.

Example parse_csv_example :
  parse_csv (lit "a,b" ++ [LF] ++ [DQUOTE] ++ lit "x,1" ++ [DQUOTE; DQUOTE; LF; DQUOTE]
             ++ lit ",," ++ [CR; LF; LF; DQUOTE; DQUOTE; LF])
  = [[lit "a"; lit "b"]; [lit "x,1" ++ [DQUOTE; LF]; []; []]; []; [[]]].
Proof. reflexivity. Qed.

(** ** The effect layer *)

Lemma bind_Return {A B} (m : M A) (k : A -> M B) a :
  result m = Return a ->
  m ≫= k = mkM (events m ++ events (k a)) (result (k a)).
Proof. intros H. unfold mbind, M_bind, M_bind_def. by rewrite H. Qed.

Lemma bind_Raise {A B} (m : M A) (k : A -> M B) e :
  result m = Raise e -> m ≫= k = mkM (events m) (Raise e).
Proof. intros H. unfold mbind, M_bind, M_bind_def. by rewrite H. Qed.

Lemma bind_Stop {A B} (m : M A) (k : A -> M B) :
  result m = Stop -> m ≫= k = mkM (events m) Stop.
Proof. intros H. unfold mbind, M_bind, M_bind_def. by rewrite H. Qed.

Lemma try_except_Raise {A} (body : M A) hs e :
  result body = Raise e ->
  try_except body hs =
    mkM (events body ++ events (dispatch e hs)) (result (dispatch e hs)).
Proof. intros H. unfold try_except. by rewrite H. Qed.

Lemma try_except_Return {A} (body : M A) hs a :
  result body = Return a -> try_except body hs = body.
Proof. intros H. unfold try_except. by rewrite H. Qed.

(** ** Trimming *)

Lemma lstrip_all_space s : forallb isspace s = true -> lstrip s = [].
Proof.
  induction s as [|c s IH]; simpl; [done|].
  intros [Hc Hs]%andb_prop. rewrite Hc. auto.
Qed.

Lemma strip_all_space s : forallb isspace s = true -> strip s = [].
Proof. intros H. unfold strip, rstrip. by rewrite (lstrip_all_space s H). Qed.

(** ** Loading the key *)

Lemma load_api_key_ok E path text :
  read_file E path = inr text ->
  load_api_key E path = mkM [] (Return (strip text)).
Proof. intros H. unfold load_api_key, try_except, lift. rewrite H. reflexivity. Qed.

Lemma load_api_key_raise E path e :
  read_file E path = inl e ->
  load_api_key E path =
    mkM [st_error (if isinstance e T_FileNotFoundError
                   then lit "API key file '" ++ path
                        ++ lit "' not found. Please ensure it exists."
                   else lit "An error occurred while reading the API key file: "
                        ++ exc_str e)]
        Stop.
Proof.
  intros H. unfold load_api_key, try_except, lift. rewrite H. simpl.
  destruct (isinstance e T_FileNotFoundError) eqn:Hi; reflexivity.
Qed.

Lemma isinstance_FileNotFoundError e :
  isinstance e T_FileNotFoundError = true <-> exc_type e = exc_FileNotFoundError.
Proof. unfold isinstance. destruct (exc_type e); split; congruence. Qed.

(** ** The completion call *)

Lemma findings_eq E key p :
  findings E key p =
    mkM [ChatCompletion_create key (chat_request p)]
        (outcome_of (and_then (create E key (chat_request p)) first_choice_text)).
Proof.
  unfold findings.
  destruct (create E key (chat_request p)) as [e|response]; [done|].
  unfold mbind, M_bind, M_bind_def; simpl.
  destruct (first_choice_text response); done.
Qed.

Lemma df_sampled_eq E df :
  df_sampled E df =
    if 500 <? len df
    then mkM [st_warning ([9888%N; 65039%N]
                ++ lit " Data is large! using a sample of 500 rows for analysis.")]
             (Return (sample (rng E) df 500))
    else mkM [] (Return df).
Proof. unfold df_sampled. by destruct (500 <? len df). Qed.

Lemma analysis_body_eq E key df q :
  analysis_body E key df q =
    mkM (events (df_sampled E df)
         ++ ChatCompletion_create key (chat_request (analysis_prompt E df q))
         :: match and_then (create E key (chat_request (analysis_prompt E df q)))
                           first_choice_text with
            | inr f => [st_header ([128269%N] ++ lit " Findings"); st_write f]
            | inl _ => []
            end)
        (match and_then (create E key (chat_request (analysis_prompt E df q)))
                        first_choice_text with
         | inr f => Return tt
         | inl e => Raise e
         end).
Proof.
  unfold analysis_body, analysis_prompt, sampled_table.
  rewrite df_sampled_eq.
  destruct (500 <? len df);
    (erewrite bind_Return by reflexivity); cbv beta;
    rewrite findings_eq; destruct (and_then _ _); reflexivity.
Qed.

Lemma analysis_body_not_Stop E key df q :
  result (analysis_body E key df q) <> Stop.
Proof. rewrite analysis_body_eq. simpl. by destruct (and_then _ _). Qed.

Lemma requests_app t1 t2 : requests (t1 ++ t2) = requests t1 ++ requests t2.
Proof. unfold requests. apply omap_app. Qed.

Lemma analysis_body_requests E key df q :
  requests (events (analysis_body E key df q)) = [chat_request (analysis_prompt E df q)].
Proof.
  rewrite analysis_body_eq. simpl. rewrite requests_app, df_sampled_eq.
  destruct (500 <? len df); simpl; destruct (and_then _ _); reflexivity.
Qed.

Lemma dispatch_analysis ok e :
  dispatch e [(OpenAIError ok, on_OpenAIError); (T_Exception, on_Exception)]
  = clause_handler (handling_clause ok e) e.
Proof.
  unfold handling_clause. simpl.
  destruct (isinstance e (OpenAIError ok)); reflexivity.
Qed.

Lemma analysis_Raise E key df q e :
  result (analysis_body E key df q) = Raise e ->
  analysis E key df q =
    mkM (events (analysis_body E key df q)
         ++ events (clause_handler (handling_clause (import_ok E) e) e))
        (Return tt).
Proof.
  intros H. unfold analysis. rewrite (try_except_Raise _ _ _ H), dispatch_analysis.
  by destruct (handling_clause _ _).
Qed.

Lemma analysis_result E key df q : result (analysis E key df q) = Return tt.
Proof.
  destruct (result (analysis_body E key df q)) as [[]|e|] eqn:H.
  - unfold analysis. by rewrite (try_except_Return _ _ _ H).
  - by rewrite (analysis_Raise _ _ _ _ _ H).
  - by apply analysis_body_not_Stop in H.
Qed.

Lemma analysis_requests E key df q :
  requests (events (analysis E key df q)) = [chat_request (analysis_prompt E df q)].
Proof.
  destruct (result (analysis_body E key df q)) as [[]|e|] eqn:H.
  - unfold analysis. rewrite (try_except_Return _ _ _ H). apply analysis_body_requests.
  - rewrite (analysis_Raise _ _ _ _ _ H). simpl.
    rewrite requests_app, analysis_body_requests.
    by destruct (handling_clause _ _).
  - by apply analysis_body_not_Stop in H.
Qed.

Lemma analysis_success E key df q f :
  and_then (create E key (chat_request (analysis_prompt E df q))) first_choice_text
    = inr f ->
  analysis E key df q =
    mkM (events (df_sampled E df)
         ++ [ChatCompletion_create key (chat_request (analysis_prompt E df q));
             st_header ([128269%N] ++ lit " Findings"); st_write f])
        (Return tt).
Proof.
  intros Hf.
  assert (analysis_body E key df q =
    mkM (events (df_sampled E df)
         ++ [ChatCompletion_create key (chat_request (analysis_prompt E df q));
             st_header ([128269%N] ++ lit " Findings"); st_write f])
        (Return tt)) as Hb by (by rewrite analysis_body_eq, Hf).
  unfold analysis. rewrite (try_except_Return _ _ tt); [done|by rewrite Hb].
Qed.

Lemma analysis_failure E key df q e :
  and_then (create E key (chat_request (analysis_prompt E df q))) first_choice_text
    = inl e ->
  analysis E key df q =
    mkM (events (df_sampled E df)
         ++ ChatCompletion_create key (chat_request (analysis_prompt E df q))
         :: events (clause_handler (handling_clause (import_ok E) e) e))
        (Return tt).
Proof.
  intros Hf.
  assert (analysis_body E key df q =
    mkM (events (df_sampled E df)
         ++ [ChatCompletion_create key (chat_request (analysis_prompt E df q))])
        (Raise e)) as Hb by (by rewrite analysis_body_eq, Hf).
  rewrite (analysis_Raise _ _ _ _ e) by (by rewrite Hb).
  rewrite Hb. simpl. by rewrite <- app_assoc.
Qed.

Lemma calls_app t1 t2 : calls (t1 ++ t2) = calls t1 ++ calls t2.
Proof. unfold calls. apply omap_app. Qed.

Lemma analysis_calls E key df q :
  calls (events (analysis E key df q))
  = [(key, chat_request (analysis_prompt E df q))].
Proof.
  destruct (and_then (create E key (chat_request (analysis_prompt E df q)))
                     first_choice_text) as [e|f] eqn:H.
  - rewrite (analysis_failure _ _ _ _ _ H). cbn [events].
    rewrite calls_app, df_sampled_eq.
    by destruct (500 <? len df), (handling_clause _ _).
  - rewrite (analysis_success _ _ _ _ _ H). cbn [events].
    rewrite calls_app, df_sampled_eq.
    by destruct (500 <? len df).
Qed.

Lemma analysis_no_dataframe E key df q d :
  st_dataframe d ∉ events (analysis E key df q).
Proof.
  intros Hin.
  destruct (and_then (create E key (chat_request (analysis_prompt E df q)))
                     first_choice_text) as [e|f] eqn:H.
  - rewrite (analysis_failure _ _ _ _ _ H), df_sampled_eq in Hin. cbn [events] in Hin.
    apply elem_of_app in Hin as [Hin|Hin].
    { destruct (500 <? len df);
        repeat (apply elem_of_cons in Hin as [Heq|Hin]; [discriminate Heq|]);
        by apply elem_of_nil in Hin. }
    apply elem_of_cons in Hin as [Heq|Hin]; [discriminate Heq|].
    destruct (handling_clause _ _); simpl in Hin;
      repeat (apply elem_of_cons in Hin as [Heq|Hin]; [discriminate Heq|]);
      by apply elem_of_nil in Hin.
  - rewrite (analysis_success _ _ _ _ _ H), df_sampled_eq in Hin. cbn [events] in Hin.
    apply elem_of_app in Hin as [Hin|Hin];
      [destruct (500 <? len df)|];
      repeat (apply elem_of_cons in Hin as [Heq|Hin]; [discriminate Heq|]);
      by apply elem_of_nil in Hin.
Qed.

(** ** The upload and the whole script *)

Lemma uploaded_raise E key file e :
  read_excel E file = inl e ->
  uploaded E key file = mkM (excel_report e) (Return tt).
Proof. intros H. unfold uploaded. by rewrite H. Qed.

Lemma render_sequence {A} E (evs : list event) (k : M A) :
  fold_right (fun ev m => render E ev ;; m) k evs =
    match first_raise E evs with
    | Some e => mkM (rendered E evs) (Raise e)
    | None => mkM (evs ++ events k) (result k)
    end.
Proof.
  induction evs as [|ev evs IH]; simpl.
  - by destruct k.
  - rewrite IH. unfold render. destruct (st_raises E ev) as [e|]; [done|].
    by destruct (first_raise E evs).
Qed.

(** What the script does with a table it could read: it shows the
    preview and the widgets until a call raises, and runs the analysis
    when none does and the button is clicked. *)
Lemma uploaded_cases E key file df :
  read_excel E file = inr df ->
  uploaded E key file =
    mkM (match first_raise E (upload_events df) with
         | Some e => rendered E (upload_events df) ++ excel_report e
         | None =>
             upload_events df
             ++ (if button E
                 then match st_raises E spinner_event with
                      | Some e => excel_report e
                      | None => spinner_event :: events (analysis E key df (text_area E))
                      end
                 else [])
         end)
        (Return tt).
Proof.
  intros H. unfold uploaded. rewrite H.
  erewrite bind_Return by reflexivity. cbv beta. cbn [lift events mret M_ret app].
  set (rest := if button E
               then render E spinner_event ;; analysis E key df (text_area E)
               else mret tt).
  match goal with
  | |- try_except (mkM (events ?body) _) _ = _ =>
      change body with
        (fold_right (fun ev m => render E ev ;; m) rest (upload_events df))
  end.
  rewrite render_sequence.
  destruct (first_raise E (upload_events df)) as [e|]; [done|].
  assert (rest = mkM (if button E
                      then match st_raises E spinner_event with
                           | Some e => []
                           | None => spinner_event :: events (analysis E key df (text_area E))
                           end
                      else [])
                     (if button E
                      then match st_raises E spinner_event with
                           | Some e => Raise e
                           | None => Return tt
                           end
                      else Return tt)) as ->.
  { unfold rest, render. destruct (button E); [|done].
    destruct (st_raises E spinner_event) as [e|]; [done|].
    unfold mbind, M_bind, M_bind_def. cbn [events result emit].
    by rewrite analysis_result. }
  destruct (button E); [|done].
  destruct (st_raises E spinner_event) as [e|]; [|done].
  unfold try_except. cbn [result events]. rewrite app_nil_r. reflexivity.
Qed.

Lemma uploaded_result E key file : result (uploaded E key file) = Return tt.
Proof.
  destruct (read_excel E file) as [e|df] eqn:H.
  - by rewrite (uploaded_raise _ _ _ _ H).
  - by rewrite (uploaded_cases _ _ _ _ H).
Qed.

Lemma uploaded_eq E key file df :
  read_excel E file = inr df ->
  first_raise E (upload_events df) = None ->
  uploaded E key file =
    mkM (upload_events df
         ++ (if button E
             then match st_raises E spinner_event with
                  | Some e => excel_report e
                  | None => spinner_event :: events (analysis E key df (text_area E))
                  end
             else []))
        (Return tt).
Proof. intros H Hr. by rewrite (uploaded_cases _ _ _ _ H), Hr. Qed.

Lemma rendered_elem E evs ev : ev ∈ rendered E evs -> ev ∈ evs.
Proof.
  induction evs as [|ev' evs IH]; simpl; [done|].
  destruct (st_raises E ev'); [by intros ?%elem_of_nil|].
  intros [->|Hin]%elem_of_cons.
  - apply list_elem_of_here.
  - by apply list_elem_of_further, IH.
Qed.

Lemma calls_rendered E df : calls (rendered E (upload_events df)) = [].
Proof.
  unfold upload_events. cbn [rendered].
  repeat match goal with
         | |- context [match st_raises E ?ev with _ => _ end] =>
             destruct (st_raises E ev)
         end; reflexivity.
Qed.

Lemma uploaded_calls E key file :
  calls (events (uploaded E key file)) =
    match read_excel E file with
    | inr df =>
        match first_raise E (upload_events df), button E, st_raises E spinner_event with
        | None, true, None => [(key, chat_request (analysis_prompt E df (text_area E)))]
        | _, _, _ => []
        end
    | inl _ => []
    end.
Proof.
  destruct (read_excel E file) as [e|df] eqn:Hx.
  - by rewrite (uploaded_raise _ _ _ _ Hx).
  - rewrite (uploaded_cases _ _ _ _ Hx). cbn [events].
    destruct (first_raise E (upload_events df)) as [e|].
    + by rewrite calls_app, calls_rendered.
    + rewrite calls_app. change (calls (upload_events df)) with (@nil (str * request)).
      destruct (button E); [|reflexivity].
      destruct (st_raises E spinner_event) as [e|]; [reflexivity|].
      change (calls (spinner_event :: ?t)) with (calls t).
      by rewrite analysis_calls.
Qed.

Lemma script_stops E e :
  read_file E (lit "api_key.txt") = inl e ->
  events (script E) = events (load_api_key E (lit "api_key.txt"))
  /\ result (script E) = Stop.
Proof.
  intros H. unfold script.
  rewrite bind_Stop by (by rewrite (load_api_key_raise _ _ _ H)).
  done.
Qed.

(** ** The claims *)

(** C5. [load_api_key] returns the content of the key file with the
    surrounding whitespace removed.  When the file does not exist it shows
    the message of the missing key file and stops the script; on any other
    error of the read it shows the message of the failed read and stops the
    script.  In both cases the run of the script consists of that message
    alone: nothing after the load is executed. *)
Theorem load_api_key_contract E path :
  (forall text, read_file E path = inr text ->
     load_api_key E path = mkM [] (Return (strip text)))
  /\ (forall e, read_file E path = inl e ->
        exc_type e = exc_FileNotFoundError ->
        load_api_key E path =
          mkM [st_error (lit "API key file '" ++ path
                         ++ lit "' not found. Please ensure it exists.")] Stop)
  /\ (forall e, read_file E path = inl e ->
        exc_type e <> exc_FileNotFoundError ->
        load_api_key E path =
          mkM [st_error (lit "An error occurred while reading the API key file: "
                         ++ exc_str e)] Stop)
  /\ (forall e, read_file E (lit "api_key.txt") = inl e ->
        result (script E) = Stop
        /\ exists msg, events (script E) = [st_error msg]).
Proof.
  repeat split.
  - apply load_api_key_ok.
  - intros e H Hc. rewrite (load_api_key_raise _ _ _ H).
    apply isinstance_FileNotFoundError in Hc. by rewrite Hc.
  - intros e H Hc. rewrite (load_api_key_raise _ _ _ H).
    destruct (isinstance e T_FileNotFoundError) eqn:Hi; [|done].
    by apply isinstance_FileNotFoundError in Hi.
  - by apply (script_stops E e).
  - destruct (script_stops E e H) as [-> _].
    rewrite (load_api_key_raise _ _ _ H). eauto.
Qed.

Lemma load_api_key_contract_witness :
  load_api_key (env_answer (inr (response_with []))) (lit "api_key.txt")
    = mkM [] (Return (lit "sk-test"))
  /\ result (script env_missing_key) = Stop
  /\ events (script env_missing_key)
     = [st_error (lit "API key file 'api_key.txt' not found. Please ensure it exists.")].
Proof.
  pose proof (load_api_key_contract env_missing_key (lit "api_key.txt"))
    as (_ & Hmissing & _ & Hstop).
  split; [|split].
  - exact (proj1 (load_api_key_contract (env_answer (inr (response_with [])))
                    (lit "api_key.txt")) demo_key_file eq_refl).
  - exact (proj1 (Hstop no_such_file eq_refl)).
  - reflexivity.
Defined.

(** C8. A key file that holds nothing but whitespace (an empty file
    included) gives the empty key: [load_api_key] returns it without a
    message and without stopping, and the script goes on. *)
Theorem blank_key_file_accepted E text :
  read_file E (lit "api_key.txt") = inr text ->
  forallb isspace text = true ->
  load_api_key E (lit "api_key.txt") = mkM [] (Return [])
  /\ result (script E) = Return tt.
Proof.
  intros H Hs. pose proof (load_api_key_ok _ _ _ H) as Hl.
  rewrite (strip_all_space _ Hs) in Hl. split; [done|].
  unfold script. erewrite bind_Return by (by rewrite Hl). cbv beta.
  destruct (uploaded_file E) as [file|]; [|reflexivity].
  unfold mbind, M_bind, M_bind_def. cbn.
  by rewrite uploaded_result.
Qed.

Lemma blank_key_file_accepted_witness :
  load_api_key env_blank_key (lit "api_key.txt") = mkM [] (Return [])
  /\ result (script env_blank_key) = Return tt.
Proof.
  apply (blank_key_file_accepted env_blank_key [32%N; 9%N; LF]); reflexivity.
Defined.

(** C10. After a successful parse the only table the script shows is the
    preview: the parsed table cut to its first five rows, under the same
    column labels.  It is shown right after the message of the successful
    read whenever these two calls return.  The parsed table itself is left
    as it is: a request that follows is built from it, not from the
    preview. *)
Theorem preview_first_five E key file df :
  read_excel E file = inr df ->
  (forall d, st_dataframe d ∈ events (uploaded E key file) ->
     columns d = columns df /\ rows d = take 5 (rows df))
  /\ (st_raises E (st_success ([9989%N]
                     ++ lit " Excel file successfully uploaded and read!")) = None ->
      st_raises E (st_dataframe (head df head_default)) = None ->
      exists rest,
        events (uploaded E key file)
        = st_success ([9989%N] ++ lit " Excel file successfully uploaded and read!")
          :: st_dataframe (mkDataFrame (columns df) (take 5 (rows df)))
          :: rest)
  /\ (forall k r, (k, r) ∈ calls (events (uploaded E key file)) ->
        r = chat_request (analysis_prompt E df (text_area E))).
Proof.
  intros H. split; [|split].
  - intros d Hin. rewrite (uploaded_cases _ _ _ _ H) in Hin. cbn [events] in Hin.
    assert (st_dataframe d ∈ upload_events df ->
            columns d = columns df /\ rows d = take 5 (rows df)) as Hup.
    { unfold upload_events. intros Hd.
      apply elem_of_cons in Hd as [Heq|Hd]; [discriminate Heq|].
      apply elem_of_cons in Hd as [Heq|Hd]; [by injection Heq as ->|].
      repeat (apply elem_of_cons in Hd as [Heq|Hd]; [discriminate Heq|]).
      by apply elem_of_nil in Hd. }
    assert (forall e, st_dataframe d ∉ excel_report e) as Hex.
    { intros e He. unfold excel_report in He.
      repeat (apply elem_of_cons in He as [Heq|He]; [discriminate Heq|]).
      by apply elem_of_nil in He. }
    destruct (first_raise E (upload_events df)) as [e|].
    + apply elem_of_app in Hin as [Hin|Hin]; [|by apply Hex in Hin].
      by apply Hup, (rendered_elem E).
    + apply elem_of_app in Hin as [Hin|Hin]; [by apply Hup|].
      destruct (button E); [|by apply elem_of_nil in Hin].
      destruct (st_raises E spinner_event) as [e|]; [by apply Hex in Hin|].
      apply elem_of_cons in Hin as [Heq|Hin]; [discriminate Heq|].
      by apply analysis_no_dataframe in Hin.
  - intros H1 H2. rewrite (uploaded_cases _ _ _ _ H). cbn [events].
    unfold upload_events. cbn [first_raise rendered]. rewrite H1, H2.
    repeat match goal with
           | |- context [match st_raises E ?ev with _ => _ end] =>
               destruct (st_raises E ev)
           end; eexists; reflexivity.
  - intros k r Hin. rewrite uploaded_calls, H in Hin.
    destruct (first_raise E (upload_events df)); [by apply elem_of_nil in Hin|].
    destruct (button E); [|by apply elem_of_nil in Hin].
    destruct (st_raises E spinner_event); [by apply elem_of_nil in Hin|].
    apply elem_of_cons in Hin as [[= _ ->]|Hin]; [done|].
    by apply elem_of_nil in Hin.
Qed.

Lemma preview_first_five_witness :
  len week_table = 7
  /\ length (take 5 (rows week_table)) = 5
  /\ exists rest,
       events (uploaded env_week (lit "sk-test") [])
       = st_success ([9989%N] ++ lit " Excel file successfully uploaded and read!")
         :: st_dataframe (mkDataFrame (columns week_table) (take 5 (rows week_table)))
         :: rest.
Proof.
  split; [reflexivity|]. split; [reflexivity|].
  exact (proj1 (proj2 (preview_first_five env_week (lit "sk-test") [] week_table eq_refl))
           eq_refl eq_refl).
Defined.

(** C3, as amended.  When the error classes of [openai.error] were
    imported, every exception raised inside the inner [try] ends the
    analysis in one of two ways.  An instance of [OpenAIError] is handled
    by the first clause, the service-error kind: its text is logged after
    the words of the API error and shown.  Any other exception is handled
    by the second clause, the unexpected-error kind: its text is logged and
    shown likewise.  The analysis then returns normally, and its trace
    holds one request: nothing is tried again. *)
Theorem analysis_failure_classified E key df q e :
  import_ok E = true ->
  result (analysis_body E key df q) = Raise e ->
  analysis E key df q =
    mkM (events (analysis_body E key df q)
         ++ (if isinstance e T_OpenAIError
             then [logger_error (lit "OpenAI API error: " ++ exc_str e);
                   st_error (CROSS ++ lit " OpenAI API returned an error: " ++ exc_str e)]
             else [logger_error (lit "Unexpected error: " ++ exc_str e);
                   st_error (CROSS ++ lit " An unexpected error occurred: " ++ exc_str e)]))
        (Return tt)
  /\ reported_kind (handling_clause (import_ok E) e)
     = (if isinstance e T_OpenAIError then ServiceError else UnexpectedError)
  /\ requests (events (analysis E key df q)) = [chat_request (analysis_prompt E df q)].
Proof.
  intros Hok H. split; [|split].
  - rewrite (analysis_Raise _ _ _ _ _ H).
    unfold handling_clause. rewrite Hok. simpl.
    by destruct (isinstance e T_OpenAIError).
  - unfold handling_clause. rewrite Hok. simpl.
    by destruct (isinstance e T_OpenAIError).
  - apply analysis_requests.
Qed.

Lemma analysis_failure_classified_witness :
  analysis (env_answer (inl auth_error)) (lit "sk-test") demo_table (lit "Summarize.")
  = mkM [ChatCompletion_create (lit "sk-test")
           (chat_request (analysis_prompt (env_answer (inl auth_error)) demo_table
                                          (lit "Summarize.")));
         logger_error (lit "OpenAI API error: Incorrect API key provided");
         st_error (CROSS ++ lit " OpenAI API returned an error: Incorrect API key provided")]
        (Return tt).
Proof.
  exact (proj1 (analysis_failure_classified (env_answer (inl auth_error)) (lit "sk-test")
                  demo_table (lit "Summarize.") auth_error eq_refl eq_refl)).
Defined.

(** C3 as it was claimed fails after a failed import: a response without
    the key [choices] raises [KeyError], which is no instance of
    [OpenAIError], yet the first clause handles it and it is logged as an
    API error. *)
Lemma fallback_reports_shape_mismatch_as_api_error :
  result (analysis_body (env_fallback (inr (PDict []))) (lit "sk-test") demo_table
                        (lit "Summarize."))
    = Raise (mkExn exc_KeyError (lit "'choices'"))
  /\ isinstance (mkExn exc_KeyError (lit "'choices'")) T_OpenAIError = false
  /\ analysis (env_fallback (inr (PDict []))) (lit "sk-test") demo_table (lit "Summarize.")
     = mkM [ChatCompletion_create (lit "sk-test")
              (chat_request (analysis_prompt (env_fallback (inr (PDict []))) demo_table
                                             (lit "Summarize.")));
            logger_error (lit "OpenAI API error: 'choices'");
            st_error (CROSS ++ lit " OpenAI API returned an error: 'choices'")]
           (Return tt)
  /\ reported_kind (handling_clause (import_ok (env_fallback (inr (PDict []))))
                                    (mkExn exc_KeyError (lit "'choices'")))
     <> UnexpectedError.
Proof. repeat split. discriminate. Qed.

(** C4, as amended.  When the response holds an empty list of choices, no
    text is produced: taking the first choice raises [IndexError] after the
    one request was sent.  The failure has no kind of its own; it is
    handled as every exception of the inner [try] is, as an unexpected
    error when the error classes were imported and as a service error when
    they were not. *)
Theorem zero_choices_fail E key p response :
  create E key (chat_request p) = inr response ->
  getitem response (KStr (lit "choices")) = inr (PList []) ->
  findings E key p =
    mkM [ChatCompletion_create key (chat_request p)]
        (Raise (mkExn exc_IndexError (lit "list index out of range")))
  /\ complete E key p =
       Some (Failure (if import_ok E then UnexpectedError else ServiceError)
                     (lit "list index out of range"))
  /\ (forall text, complete E key p <> Some (Success text)).
Proof.
  intros Hc Hg.
  assert (findings E key p =
    mkM [ChatCompletion_create key (chat_request p)]
        (Raise (mkExn exc_IndexError (lit "list index out of range")))) as Hf.
  { rewrite findings_eq, Hc. unfold first_choice_text. simpl. by rewrite Hg. }
  unfold complete. rewrite Hf. simpl. split; [done|].
  unfold handling_clause. split; [|done].
  by destruct (import_ok E).
Qed.

Lemma zero_choices_fail_witness :
  complete (env_answer (inr (response_with []))) (lit "sk-test") (lit "p")
  = Some (Failure UnexpectedError (lit "list index out of range")).
Proof.
  exact (proj1 (proj2 (zero_choices_fail (env_answer (inr (response_with [])))
                         (lit "sk-test") (lit "p") (response_with []) eq_refl eq_refl))).
Defined.

(** C4 as it was claimed fails: with no choice in the response the failure
    is not of the kind [EmptyResponse], neither with the error classes
    imported nor without them. *)
Lemma zero_choices_not_EmptyResponse :
  complete (env_answer (inr (response_with []))) (lit "sk-test") (lit "p")
    = Some (Failure UnexpectedError (lit "list index out of range"))
  /\ complete (env_fallback (inr (response_with []))) (lit "sk-test") (lit "p")
    = Some (Failure ServiceError (lit "list index out of range"))
  /\ (forall detail,
        complete (env_answer (inr (response_with []))) (lit "sk-test") (lit "p")
        <> Some (Failure EmptyResponse detail)).
Proof. repeat split. discriminate. Qed.

(** C6. When the service answers and the first choice of the response
    holds a message with a text, the one request that was sent carries two
    messages, the fixed system message and a user message whose content is
    the prompt, and the result is a success: that text with the surrounding
    whitespace removed. *)
Theorem findings_success E key p response choice0 rest msg text :
  create E key (chat_request p) = inr response ->
  getitem response (KStr (lit "choices")) = inr (PList (choice0 :: rest)) ->
  getitem choice0 (KStr (lit "message")) = inr msg ->
  getitem msg (KStr (lit "content")) = inr (PStr text) ->
  findings E key p =
    mkM [ChatCompletion_create key (chat_request p)] (Return (strip text))
  /\ messages (chat_request p)
     = [mkMessage (lit "system") (lit "You are a helpful assistant.");
        mkMessage (lit "user") p]
  /\ complete E key p = Some (Success (strip text)).
Proof.
  intros Hc Hg Hm Ht.
  assert (findings E key p =
    mkM [ChatCompletion_create key (chat_request p)] (Return (strip text))) as Hf.
  { rewrite findings_eq, Hc. unfold first_choice_text. simpl.
    rewrite Hg. simpl. rewrite Hm. simpl. by rewrite Ht. }
  unfold complete. by rewrite Hf.
Qed.

Lemma findings_success_witness :
  findings (env_answer (inr (response_with [choice_with (lit " X" ++ [LF])])))
           (lit "sk-test") (lit "p")
    = mkM [ChatCompletion_create (lit "sk-test") (chat_request (lit "p"))]
          (Return (lit "X")).
Proof.
  exact (proj1 (findings_success
                  (env_answer (inr (response_with [choice_with (lit " X" ++ [LF])])))
                  (lit "sk-test") (lit "p")
                  (response_with [choice_with (lit " X" ++ [LF])])
                  (choice_with (lit " X" ++ [LF])) []
                  (PDict [(lit "role", PStr (lit "assistant"));
                          (lit "content", PStr (lit " X" ++ [LF]))])
                  (lit " X" ++ [LF])
                  eq_refl eq_refl eq_refl eq_refl)).
Defined.

Lemma log_unexpected_neq (a b : str) :
  logger_error (lit "Unexpected error: " ++ b)
  <> logger_error (lit "OpenAI API error: " ++ a).
Proof. discriminate. Qed.

Lemma analysis_body_no_log E key df q msg :
  logger_error msg ∉ events (analysis_body E key df q).
Proof.
  rewrite analysis_body_eq, df_sampled_eq.
  destruct (500 <? len df), (and_then _ _); simpl; intros Hin;
    repeat (apply elem_of_cons in Hin as [Heq|Hin]; [discriminate Heq|]);
    by apply elem_of_nil in Hin.
Qed.

(** C9. After a failed import the name [OpenAIError] stands for
    [Exception].  The first clause then handles every exception of the
    inner [try]: each is logged and shown as an API error, and no run of
    the analysis logs an unexpected error. *)
Theorem fallback_all_service_errors E key df q :
  import_ok E = false ->
  OpenAIError (import_ok E) = T_Exception
  /\ (forall e, result (analysis_body E key df q) = Raise e ->
        handling_clause (import_ok E) e = clause_OpenAIError
        /\ analysis E key df q =
             mkM (events (analysis_body E key df q)
                  ++ [logger_error (lit "OpenAI API error: " ++ exc_str e);
                      st_error (CROSS ++ lit " OpenAI API returned an error: "
                                ++ exc_str e)])
                 (Return tt))
  /\ (forall detail,
        logger_error (lit "Unexpected error: " ++ detail)
        ∉ events (analysis E key df q)).
Proof.
  intros Hok. rewrite Hok. split; [done|]. split.
  - intros e H. split; [done|]. rewrite (analysis_Raise _ _ _ _ _ H).
    unfold handling_clause. by rewrite Hok.
  - intros detail.
    destruct (result (analysis_body E key df q)) as [[]|e|] eqn:H.
    + unfold analysis. rewrite (try_except_Return _ _ _ H).
      apply analysis_body_no_log.
    + rewrite (analysis_Raise _ _ _ _ _ H).
      unfold handling_clause. rewrite Hok. simpl.
      rewrite elem_of_app, !elem_of_cons, elem_of_nil.
      intros [Hin|[Heq|[Heq|[]]]]; [by apply analysis_body_no_log in Hin| |done].
      by apply log_unexpected_neq in Heq.
    + by apply analysis_body_not_Stop in H.
Qed.

Lemma fallback_all_service_errors_witness :
  handling_clause (import_ok (env_fallback (inr (PDict []))))
                  (mkExn exc_KeyError (lit "'choices'")) = clause_OpenAIError.
Proof.
  exact (proj1 (proj1 (proj2 (fallback_all_service_errors
                                (env_fallback (inr (PDict []))) (lit "sk-test")
                                demo_table (lit "Summarize.") eq_refl))
                      (mkExn exc_KeyError (lit "'choices'")) eq_refl)).
Defined.

(** *** The records of the CSV text *)

Lemma plain_field_not_special lineterminator f :
  needs_quotes lineterminator f = false ->
  Forall (fun c => (c =? DQUOTE)%N = false /\ (c =? COMMA)%N = false) f.
Proof.
  unfold needs_quotes. intros Hq. apply Forall_forall. intros c Hc.
  assert (is_special lineterminator c = false) as Hs.
  { destruct (is_special lineterminator c) eqn:Hs; [|done].
    rewrite <- Hq. symmetry. apply existsb_exists. eauto. }
  unfold is_special in Hs.
  by apply orb_false_elim in Hs as [[? ?]%orb_false_elim _].
Qed.

Lemma split_quoted_body f fld flds :
  fold_left split_step (double_quotes f) (mkSplitter FIELD_QUOTED fld flds)
  = mkSplitter FIELD_QUOTED (rev f ++ fld) flds.
Proof.
  revert fld. induction f as [|c f IH]; intros fld; [done|]. simpl.
  rewrite <- app_assoc. simpl.
  destruct (c =? DQUOTE)%N eqn:Hc.
  - apply N.eqb_eq in Hc as ->. simpl. apply IH.
  - simpl. rewrite Hc. apply IH.
Qed.

Lemma split_plain_body f fld flds :
  Forall (fun c => (c =? DQUOTE)%N = false /\ (c =? COMMA)%N = false) f ->
  fold_left split_step f (mkSplitter FIELD_PLAIN fld flds)
  = mkSplitter FIELD_PLAIN (rev f ++ fld) flds.
Proof.
  intros H. revert fld. induction H as [|c f [_ Hc] _ IH]; intros fld; [done|].
  simpl. rewrite Hc, <- app_assoc. apply IH.
Qed.

Lemma split_field lineterminator f flds :
  fold_left split_step (write_field lineterminator f) (mkSplitter FIELD_START [] flds)
  = mkSplitter (after_written lineterminator f) (rev f) flds.
Proof.
  unfold write_field, after_written.
  destruct (needs_quotes lineterminator f) eqn:Hq.
  - cbn [fold_left]. change (split_step (mkSplitter FIELD_START [] flds) DQUOTE)
      with (mkSplitter FIELD_QUOTED [] flds).
    rewrite fold_left_app, split_quoted_body. cbn [fold_left].
    by rewrite app_nil_r.
  - destruct (plain_field_not_special _ _ Hq) as [|c f [Hc1 Hc2] Hp]; [done|].
    simpl. rewrite Hc1, Hc2. by rewrite (split_plain_body _ _ _ Hp).
Qed.

Lemma split_delimiter lineterminator f fld flds :
  split_step (mkSplitter (after_written lineterminator f) fld flds) COMMA
  = mkSplitter FIELD_START [] (rev fld :: flds).
Proof. unfold after_written. by destruct (needs_quotes _ _), f. Qed.

Lemma split_join_fields lineterminator f fs flds :
  let s := fold_left split_step (join_fields lineterminator (f :: fs))
                     (mkSplitter FIELD_START [] flds) in
  rev (rev (sp_field s) :: sp_fields s) = rev flds ++ f :: fs.
Proof.
  revert f flds. induction fs as [|g fs IH]; intros f flds.
  - cbn zeta. cbn [join_fields]. rewrite split_field. cbn [sp_field sp_fields].
    by rewrite rev_involutive.
  - cbn zeta.
    change (join_fields lineterminator (f :: g :: fs))
      with (write_field lineterminator f ++ COMMA :: join_fields lineterminator (g :: fs)).
    rewrite fold_left_app, split_field. cbn [fold_left].
    rewrite split_delimiter, rev_involutive.
    etransitivity; [exact (IH g (f :: flds))|].
    simpl. by rewrite <- app_assoc.
Qed.

(** What [writerow] writes is a record followed by the line terminator,
    and the fields of the record are the texts that were given. *)
Lemma writerow_record lineterminator fs :
  exists record,
    writerow lineterminator fs = record ++ lineterminator
    /\ record_fields record = fs.
Proof.
  unfold writerow. destruct fs as [|f fs].
  - by exists [].
  - destruct (join_fields lineterminator (f :: fs)) as [|c t] eqn:Hj.
    + exists [DQUOTE; DQUOTE]. split; [done|].
      destruct fs as [|g fs].
      * simpl in Hj. unfold write_field in Hj.
        destruct (needs_quotes _ _); [done|]. by subst f.
      * simpl in Hj. by apply app_eq_nil in Hj as [_ ?].
    + exists (c :: t). split; [done|].
      unfold record_fields. rewrite <- Hj.
      exact (split_join_fields lineterminator f fs []).
Qed.

(** C2. The prompt is, in this order: the fixed instruction, the label
    of the data, the table as CSV, an empty line, the label of the
    questions, the questions as they were entered, an empty line, and the
    word that asks for the findings.  The CSV is a first record and then
    one record for each row of the table, in the order of the rows, every
    one followed by the line terminator; the fields of the first record are
    the column labels and the fields of the record of a row are the texts
    of its cells. *)
Theorem prompt_layout lineterminator df questions :
  exists header records,
    prompt (to_csv lineterminator df) questions =
      (lit "You are an analytical assistant. Based on the following data and questions, provide comprehensive findings."
       ++ [LF; LF])
      ++ (lit "Data:" ++ [LF])
      ++ ((header ++ lineterminator)
          ++ concat (map (fun record => record ++ lineterminator) records))
      ++ [LF; LF]
      ++ (lit "Questions:" ++ [LF])
      ++ questions
      ++ [LF; LF]
      ++ lit "Findings:"
    /\ record_fields header = columns df
    /\ Forall2 (fun row record => record_fields record = map cell_text row)
               (rows df) records.
Proof.
  destruct (writerow_record lineterminator (columns df)) as (header & Hh & Hfh).
  assert (exists records,
             map (row_line lineterminator) (rows df)
             = map (fun record => record ++ lineterminator) records
             /\ Forall2 (fun row record => record_fields record = map cell_text row)
                        (rows df) records) as (records & Hr & Hfr).
  { induction (rows df) as [|row rs (records & Hr & Hfr)].
    - by exists [].
    - destruct (writerow_record lineterminator (map cell_text row)) as (record & Hw & Hf).
      exists (record :: records). split.
      + simpl. unfold row_line at 1. by rewrite Hw, Hr.
      + by constructor. }
  exists header, records. repeat split; [|done|done].
  unfold prompt, preamble, to_csv, header_line. rewrite Hh, Hr.
  by rewrite <- !app_assoc.
Qed.

(** ** Sampling *)

Section Shuffle.
Context {A : Type}.
Implicit Types x : list A.

Lemma insert_Permutation x i a b :
  x !! i = Some a -> a :: <[i:=b]> x ≡ₚ b :: x.
Proof.
  revert i. induction x as [|c x IH]; intros [|i] H; simplify_eq/=.
  - apply perm_swap.
  - rewrite perm_swap, (IH i H). apply perm_swap.
Qed.

Lemma swap_Permutation i j x : swap i j x ≡ₚ x.
Proof.
  unfold swap.
  destruct (x !! i) as [a|] eqn:Hi; [|done].
  destruct (x !! j) as [b|] eqn:Hj; [|done].
  apply (Permutation_cons_inv (a := a)).
  assert (<[j:=a]> x !! i = Some a) as Hi'.
  { destruct (decide (i = j)) as [->|Hne].
    - apply list_lookup_insert_eq. by eapply lookup_lt_Some.
    - by rewrite list_lookup_insert_ne. }
  rewrite (insert_Permutation _ _ _ b Hi').
  by apply insert_Permutation.
Qed.

Lemma shuffle_from_Permutation rng k i x : shuffle_from rng k i x ≡ₚ x.
Proof.
  revert k x. induction i as [|i IH]; intros k x; simpl; [done|].
  by rewrite IH, swap_Permutation.
Qed.

Lemma shuffle_Permutation rng x : shuffle rng x ≡ₚ x.
Proof. apply shuffle_from_Permutation. Qed.
End Shuffle.

Lemma permutation_Permutation rng n : permutation rng n ≡ₚ seq 0 n.
Proof. apply shuffle_Permutation. Qed.

Lemma choice_spec rng pop size :
  size <= pop ->
  length (choice rng pop size) = size
  /\ NoDup (choice rng pop size)
  /\ Forall (fun i => i < pop) (choice rng pop size).
Proof.
  intros Hle. unfold choice. pose proof (permutation_Permutation rng pop) as Hp.
  split; [|split].
  - rewrite length_take, Hp, length_seq. lia.
  - apply (sublist_NoDup _ (permutation rng pop)); [|apply sublist_take].
    rewrite Hp. apply NoDup_seq.
  - apply Forall_take. rewrite Hp. apply Forall_forall.
    intros i Hi%in_seq. lia.
Qed.

Lemma omap_ext_elem {A B} (f g : A -> option B) (l : list A) :
  (forall a, a ∈ l -> f a = g a) -> omap f l = omap g l.
Proof.
  induction l as [|a l IH]; intros H; [done|]. csimpl.
  rewrite (H a) by apply list_elem_of_here.
  rewrite IH; [done|]. intros b Hb. apply H. by apply list_elem_of_further.
Qed.

Lemma omap_lookup_seq {A} (l : list A) :
  omap (fun i => l !! i) (seq 0 (length l)) = l.
Proof.
  induction l as [|a l IH] using rev_ind; [done|].
  rewrite length_app. change (length [a]) with 1. rewrite Nat.add_1_r, seq_S, omap_app. simpl.
  rewrite list_lookup_middle by done. simpl.
  f_equal. rewrite <- IH at 2. apply omap_ext_elem.
  intros i Hi%elem_of_seq. apply lookup_app_l. lia.
Qed.

Lemma omap_lookup_Forall2 {A} (l : list A) (locs : list nat) :
  Forall (fun i => i < length l) locs ->
  Forall2 (fun i r => l !! i = Some r) locs (omap (fun i => l !! i) locs).
Proof.
  induction 1 as [|i locs Hi _ IH]; csimpl; [constructor|].
  destruct (lookup_lt_is_Some_2 l i Hi) as [r Hr]. rewrite Hr. simpl.
  by constructor.
Qed.

Lemma sample_spec rng df n :
  n <= len df ->
  exists locs,
    length locs = n /\ NoDup locs
    /\ Forall2 (fun i r => rows df !! i = Some r) locs (rows (sample rng df n))
    /\ rows (sample rng df n) ⊆+ rows df.
Proof.
  intros Hn. exists (choice rng (len df) n).
  destruct (choice_spec rng (len df) n Hn) as (Hlen & Hnd & Hlt).
  repeat split; [done|done|by apply omap_lookup_Forall2|].
  unfold sample, take_rows, choice. simpl.
  transitivity (omap (fun i => rows df !! i) (permutation rng (len df))).
  - apply sublist_submseteq.
    rewrite <- (take_drop n (permutation rng (len df))) at 2.
    rewrite omap_app. by apply sublist_inserts_r.
  - apply Permutation_submseteq. rewrite permutation_Permutation.
    unfold len. by rewrite omap_lookup_seq.
Qed.

(** C1. A table of at most 500 rows is used as it is and no warning is
    shown.  For a table of more than 500 rows the warning is shown and the
    table used has the same columns and 500 rows: the rows of the source at
    500 distinct positions, each as it is in the source. *)
Theorem df_sampled_contract E df :
  (len df <= 500 -> df_sampled E df = mkM [] (Return df))
  /\ (500 < len df ->
      exists s locs,
        df_sampled E df =
          mkM [st_warning ([9888%N; 65039%N]
                 ++ lit " Data is large! using a sample of 500 rows for analysis.")]
              (Return s)
        /\ columns s = columns df
        /\ len s = 500
        /\ length locs = 500 /\ NoDup locs
        /\ Forall2 (fun i r => rows df !! i = Some r) locs (rows s)
        /\ rows s ⊆+ rows df).
Proof.
  rewrite df_sampled_eq. split; intros H.
  - by rewrite (proj2 (Nat.ltb_ge _ _) H).
  - rewrite (proj2 (Nat.ltb_lt _ _) H).
    destruct (sample_spec (rng E) df 500) as (locs & Hlen & Hnd & Hrows & Hsub); [lia|].
    exists (sample (rng E) df 500), locs. repeat split; try done.
    unfold len. apply Forall2_length in Hrows. congruence.
Qed.

Lemma df_sampled_contract_witness :
  df_sampled (env_answer (inr (response_with []))) demo_table = mkM [] (Return demo_table)
  /\ exists s locs,
        df_sampled (env_answer (inr (response_with []))) big_table =
          mkM [st_warning ([9888%N; 65039%N]
                 ++ lit " Data is large! using a sample of 500 rows for analysis.")]
              (Return s)
        /\ columns s = columns big_table
        /\ len s = 500
        /\ length locs = 500 /\ NoDup locs
        /\ Forall2 (fun i r => rows big_table !! i = Some r) locs (rows s)
        /\ rows s ⊆+ rows big_table.
Proof.
  split.
  - apply (proj1 (df_sampled_contract (env_answer (inr (response_with []))) demo_table)).
    unfold len. simpl. lia.
  - apply (proj2 (df_sampled_contract (env_answer (inr (response_with []))) big_table)).
    unfold len, big_table. cbn [rows]. rewrite length_map, length_seq. lia.
Defined.

(** ** Reading back what [to_csv] wrote *)

Lemma classify_other c :
  c <> LF -> c <> CR -> c <> COMMA -> c <> DQUOTE -> classify c = cc_other.
Proof.
  intros H1 H2 H3 H4. unfold classify.
  by rewrite (proj2 (N.eqb_neq _ _) H1), (proj2 (N.eqb_neq _ _) H2),
             (proj2 (N.eqb_neq _ _) H3), (proj2 (N.eqb_neq _ _) H4).
Qed.

Lemma classify_quote c : classify c = cc_quote <-> c = DQUOTE.
Proof.
  unfold classify. split.
  - destruct (c =? LF)%N, (c =? CR)%N, (c =? COMMA)%N; try done.
    destruct (c =? DQUOTE)%N eqn:H; [|done]. intros _. by apply N.eqb_eq.
  - by intros ->.
Qed.

Lemma classify_DQUOTE : classify DQUOTE = cc_quote.
Proof. reflexivity. Qed.

Lemma classify_COMMA : classify COMMA = cc_delim.
Proof. reflexivity. Qed.

Ltac feed_step :=
  simpl; unfold feed_start_record, feed_start_field, end_record;
  rewrite ?classify_DQUOTE, ?classify_COMMA; simpl.

Section RoundTrip.
Variable lineterminator : str.
Hypothesis lineterminator_linesep :
  lineterminator = [LF] \/ lineterminator = [CR; LF].

Lemma LF_in_lineterminator : LF ∈ lineterminator.
Proof using lineterminator_linesep.
  destruct lineterminator_linesep as [-> | ->]; repeat constructor.
Qed.

Lemma plain_field_chars f :
  quoted_if_cr lineterminator f -> needs_quotes lineterminator f = false ->
  Forall (fun c => classify c = cc_other) f.
Proof using lineterminator_linesep.
  unfold needs_quotes. intros Hcr Hq. apply Forall_forall. intros c Hc.
  assert (is_special lineterminator c = false) as Hs.
  { destruct (is_special lineterminator c) eqn:Hs; [|done].
    rewrite <- Hq. symmetry. apply existsb_exists. eauto. }
  unfold is_special in Hs.
  apply orb_false_elim in Hs as [[H1%N.eqb_neq H2%N.eqb_neq]%orb_false_elim H3].
  apply bool_decide_eq_false in H3.
  apply classify_other; try done.
  - intros ->. apply H3, LF_in_lineterminator.
  - intros ->. unfold quoted_if_cr, needs_quotes in Hcr.
    rewrite Hcr in Hq; [done|]. by apply list_elem_of_In.
Qed.

Lemma feed_quoted_body f fld flds recs :
  fold_left feed (double_quotes f) (mkReader IN_QUOTED_FIELD fld flds recs)
  = mkReader IN_QUOTED_FIELD (rev f ++ fld) flds recs.
Proof.
  revert fld. induction f as [|c f IH]; intros fld; [done|]. simpl.
  rewrite <- app_assoc. simpl.
  destruct (c =? DQUOTE)%N eqn:Hc.
  - apply N.eqb_eq in Hc as ->. feed_step. apply IH.
  - simpl. destruct (classify c) eqn:Hk; try apply IH.
    apply classify_quote in Hk. apply N.eqb_neq in Hc. done.
Qed.

Lemma feed_plain_body f fld flds recs :
  Forall (fun c => classify c = cc_other) f ->
  fold_left feed f (mkReader IN_FIELD fld flds recs)
  = mkReader IN_FIELD (rev f ++ fld) flds recs.
Proof.
  intros H. revert fld. induction H as [|c f Hc _ IH]; intros fld; [done|].
  simpl. rewrite Hc, <- app_assoc. apply IH.
Qed.

Lemma feed_field f flds recs :
  quoted_if_cr lineterminator f ->
  fold_left feed (write_field lineterminator f) (mkReader START_FIELD [] flds recs)
  = mkReader (after_field lineterminator f) (rev f) flds recs.
Proof using lineterminator_linesep.
  intros Hcr. unfold write_field, after_field.
  destruct (needs_quotes lineterminator f) eqn:Hq.
  - feed_step. rewrite fold_left_app, feed_quoted_body. feed_step. by rewrite app_nil_r.
  - pose proof (plain_field_chars f Hcr Hq) as Hp.
    destruct Hp as [|c f Hc Hp]; [done|]. simpl.
    unfold feed_start_field. rewrite Hc.
    by rewrite (feed_plain_body _ _ _ _ Hp).
Qed.

Lemma feed_delimiter f fld flds recs :
  feed (mkReader (after_field lineterminator f) fld flds recs) COMMA
  = mkReader START_FIELD [] (rev fld :: flds) recs.
Proof. unfold after_field. by destruct (needs_quotes _ _), f. Qed.

Lemma feed_lineterminator f fld flds recs :
  fold_left feed lineterminator (mkReader (after_field lineterminator f) fld flds recs)
  = mkReader START_RECORD [] [] (rev (rev fld :: flds) :: recs).
Proof using lineterminator_linesep.
  unfold after_field.
  destruct lineterminator_linesep as [-> | ->];
    by destruct (needs_quotes _ _), f.
Qed.

Lemma feed_join_fields f fs flds recs :
  Forall (quoted_if_cr lineterminator) (f :: fs) ->
  fold_left feed (join_fields lineterminator (f :: fs) ++ lineterminator)
            (mkReader START_FIELD [] flds recs)
  = mkReader START_RECORD [] [] (rev (rev (f :: fs) ++ flds) :: recs).
Proof using lineterminator_linesep.
  revert f flds. induction fs as [|g fs IH]; intros f flds Hs.
  - apply Forall_inv in Hs. simpl.
    rewrite fold_left_app, (feed_field _ _ _ Hs), feed_lineterminator.
    by rewrite rev_involutive.
  - pose proof (Forall_inv Hs) as Hf. apply Forall_inv_tail in Hs.
    change (join_fields lineterminator (f :: g :: fs))
      with (write_field lineterminator f ++ COMMA :: join_fields lineterminator (g :: fs)).
    rewrite <- app_assoc, fold_left_app, (feed_field _ _ _ Hf).
    cbn [fold_left app].
    rewrite feed_delimiter, rev_involutive.
    etransitivity; [exact (IH g (f :: flds) Hs)|].
    simpl. by rewrite <- !app_assoc.
Qed.
Lemma join_fields_nil f fs :
  join_fields lineterminator (f :: fs) = [] -> f = [] /\ fs = [].
Proof.
  destruct fs as [|g fs]; simpl.
  - unfold write_field. destruct (needs_quotes _ _); [done|]. by intros ->.
  - intros H. by apply app_eq_nil in H as [_ ?].
Qed.

Lemma join_fields_head f fs c t :
  quoted_if_cr lineterminator f ->
  join_fields lineterminator (f :: fs) = c :: t ->
  classify c <> cc_lf /\ classify c <> cc_cr.
Proof using lineterminator_linesep.
  intros Hcr.
  assert (forall k, write_field lineterminator f ++ k = c :: t ->
                    (classify c <> cc_lf /\ classify c <> cc_cr)
                    \/ (f = [] /\ k = c :: t)) as Hw.
  { intros k. unfold write_field.
    destruct (needs_quotes lineterminator f) eqn:Hq.
    - simpl. intros [= <- _]. left. by rewrite classify_DQUOTE.
    - destruct (plain_field_chars f Hcr Hq) as [|c' f' Hc' _]; [by right|].
      simpl. intros [= <- _]. left. by rewrite Hc'. }
  destruct fs as [|g fs]; simpl; intros H.
  - rewrite <- (app_nil_r (write_field _ _)) in H.
    by destruct (Hw _ H) as [?|[_ ?]].
  - destruct (Hw _ H) as [?|[_ [= <- _]]]; [done|]. by rewrite classify_COMMA.
Qed.

Lemma feed_start_record_text c t recs :
  classify c <> cc_lf -> classify c <> cc_cr ->
  fold_left feed (c :: t) (mkReader START_RECORD [] [] recs)
  = fold_left feed (c :: t) (mkReader START_FIELD [] [] recs).
Proof.
  intros H1 H2. simpl. unfold feed_start_record. by destruct (classify c).
Qed.

Lemma feed_writerow fs recs :
  Forall (quoted_if_cr lineterminator) fs ->
  fold_left feed (writerow lineterminator fs) (mkReader START_RECORD [] [] recs)
  = mkReader START_RECORD [] [] (fs :: recs).
Proof using lineterminator_linesep.
  intros Hs. unfold writerow. destruct fs as [|f fs].
  - simpl. by destruct lineterminator_linesep as [-> | ->].
  - destruct (join_fields lineterminator (f :: fs)) as [|c t] eqn:Hj.
    + apply join_fields_nil in Hj as [-> ->].
      by destruct lineterminator_linesep as [-> | ->].
    + destruct (join_fields_head _ _ _ _ (Forall_inv Hs) Hj) as [H1 H2].
      change ((c :: t) ++ lineterminator) with (c :: (t ++ lineterminator)).
      rewrite (feed_start_record_text _ _ _ H1 H2).
      change (c :: (t ++ lineterminator)) with ((c :: t) ++ lineterminator).
      rewrite <- Hj, (feed_join_fields _ _ _ _ Hs).
      by rewrite app_nil_r, rev_involutive.
Qed.

Lemma feed_rows rs recs :
  Forall (Forall (quoted_if_cr lineterminator)) rs ->
  fold_left feed (concat (map (writerow lineterminator) rs))
            (mkReader START_RECORD [] [] recs)
  = mkReader START_RECORD [] [] (rev rs ++ recs).
Proof using lineterminator_linesep.
  intros H. revert recs. induction H as [|r rs Hr _ IH]; intros recs; [done|].
  simpl. rewrite fold_left_app, (feed_writerow _ _ Hr), IH.
  by rewrite <- app_assoc.
Qed.

End RoundTrip.

(** C7, as amended.  Where the line terminator is the line feed or the
    pair of carriage return and line feed, a table in which every column
    label and every cell text that holds a carriage return is one the
    writer puts between quotes is read back from its CSV text as it was
    written: the column labels, then for every row the texts of its cells,
    whatever delimiters, quote characters, line feeds and quoted carriage
    returns they hold.  What is read back is the text of a cell, not its
    kind. *)
Theorem to_csv_round_trip lineterminator df :
  lineterminator = [LF] \/ lineterminator = [CR; LF] ->
  Forall (Forall (quoted_if_cr lineterminator)) (cell_values df) ->
  parse_csv (to_csv lineterminator df) = cell_values df.
Proof.
  unfold cell_values. intros Hlt H.
  pose proof (Forall_inv H) as Hh. apply Forall_inv_tail in H.
  unfold parse_csv, to_csv, header_line.
  rewrite fold_left_app, (feed_writerow _ Hlt _ _ Hh).
  replace (map (row_line lineterminator) (rows df))
    with (map (writerow lineterminator) (map (map cell_text) (rows df)))
    by (by rewrite map_map).
  rewrite (feed_rows _ Hlt _ _ H). unfold finish. simpl.
  by rewrite rev_app_distr, rev_involutive.
Qed.

Lemma to_csv_round_trip_witness :
  parse_csv (to_csv [LF] (mkDataFrame [lit "a,b"; lit "c"]
                            [[CStr (lit "x" ++ [DQUOTE; LF] ++ lit ",y"); CBlank];
                             [CStr (lit "a" ++ [CR; LF] ++ lit "b"); CStr ([CR; DQUOTE])];
                             [CInt (-7); CBool true]]))
  = [[lit "a,b"; lit "c"];
     [lit "x" ++ [DQUOTE; LF] ++ lit ",y"; []];
     [lit "a" ++ [CR; LF] ++ lit "b"; [CR; DQUOTE]];
     [lit "-7"; lit "True"]].
Proof.
  apply (to_csv_round_trip [LF]
           (mkDataFrame [lit "a,b"; lit "c"]
              [[CStr (lit "x" ++ [DQUOTE; LF] ++ lit ",y"); CBlank];
               [CStr (lit "a" ++ [CR; LF] ++ lit "b"); CStr ([CR; DQUOTE])];
               [CInt (-7); CBool true]])).
  - by left.
  - apply (bool_decide_unpack _). by vm_compute.
Defined.

(** C7 as it was claimed fails in two ways.  On a POSIX system a carriage
    return alone does not make the writer quote the cell, and it ends the
    record when the text is read back.  And the text does not tell the kind
    of a cell: a missing value and an empty string, or a number and its
    digits as a string, are written alike, so that no reading gives back the
    cell values of both tables. *)
Lemma carriage_return_breaks_round_trip :
  to_csv [LF] (mkDataFrame [lit "c"] [[CStr (lit "a" ++ [CR] ++ lit "b")]])
    = lit "c" ++ [LF] ++ lit "a" ++ [CR] ++ lit "b" ++ [LF]
  /\ parse_csv (to_csv [LF] (mkDataFrame [lit "c"] [[CStr (lit "a" ++ [CR] ++ lit "b")]]))
    = [[lit "c"]; [lit "a"]; [lit "b"]]
  /\ parse_csv (to_csv [LF] (mkDataFrame [lit "c"] [[CStr (lit "a" ++ [CR] ++ lit "b")]]))
    <> cell_values (mkDataFrame [lit "c"] [[CStr (lit "a" ++ [CR] ++ lit "b")]])
  /\ to_csv [LF] (mkDataFrame [lit "c"] [[CBlank]; [CInt 3]])
    = to_csv [LF] (mkDataFrame [lit "c"] [[CStr []]; [CStr (lit "3")]])
  /\ rows (mkDataFrame [lit "c"] [[CBlank]; [CInt 3]])
    <> rows (mkDataFrame [lit "c"] [[CStr []]; [CStr (lit "3")]]).
Proof. repeat split; discriminate. Qed.

(** * Further properties of the script *)


(** ** The run as a whole *)

Lemma script_eq E text :
  read_file E (lit "api_key.txt") = inr text ->
  script E =
    mkM (page_events
         ++ match uploaded_file E with
            | Some file => events (uploaded E (strip text) file)
            | None => [st_info ([128194%N] ++ lit " Awaiting Excel file upload.")]
            end
         ++ footer_events)
        (Return tt).
Proof.
  intros H. unfold script.
  erewrite bind_Return by (by rewrite (load_api_key_ok _ _ _ H)).
  rewrite (load_api_key_ok _ _ _ H). cbv beta.
  destruct (uploaded_file E) as [file|]; [|reflexivity].
  unfold mbind, M_bind, M_bind_def. cbn.
  rewrite uploaded_result. reflexivity.
Qed.

(** X1. No exception leaves the script: a run ends by [st.stop()] when
    the key file cannot be read and ends normally in every other case,
    whatever the upload, the table and the service do. *)
Theorem script_outcome E :
  result (script E) =
    match read_file E (lit "api_key.txt") with
    | inl _ => Stop
    | inr _ => Return tt
    end.
Proof.
  destruct (read_file E (lit "api_key.txt")) as [e|text] eqn:H.
  - by apply (script_stops E e).
  - by rewrite (script_eq _ _ H).
Qed.

(** X2. A spreadsheet that cannot be read is reported and nothing more is
    done with it: the error is logged and shown with the text of the
    exception, no table is previewed, no question is asked, the service is
    not called, and the page is completed by its footer. *)
Theorem unreadable_upload_reported E text file e :
  read_file E (lit "api_key.txt") = inr text ->
  uploaded_file E = Some file ->
  read_excel E file = inl e ->
  script E =
    mkM (page_events
         ++ [logger_error (lit "Error reading the Excel file: " ++ exc_str e);
             st_error (CROSS ++ lit " Error reading the Excel file: " ++ exc_str e)]
         ++ footer_events)
        (Return tt).
Proof.
  intros Hk Hu Hx. rewrite (script_eq _ _ Hk), Hu.
  by rewrite (uploaded_raise _ _ _ _ Hx).
Qed.

Lemma unreadable_upload_reported_witness :
  script env_unreadable
  = mkM (page_events
         ++ [logger_error (lit "Error reading the Excel file: File is not a zip file");
             st_error (CROSS ++ lit " Error reading the Excel file: File is not a zip file")]
         ++ footer_events)
        (Return tt).
Proof.
  exact (unreadable_upload_reported env_unreadable demo_key_file [80%N; 75%N] bad_zip
           eq_refl eq_refl eq_refl).
Defined.

(** X3. Without an upload the script shows the page, the note that it
    awaits a file and the footer, and does nothing else: nothing is read,
    logged or sent. *)
Theorem no_upload_waits E text :
  read_file E (lit "api_key.txt") = inr text ->
  uploaded_file E = None ->
  script E =
    mkM (page_events
         ++ [st_info ([128194%N] ++ lit " Awaiting Excel file upload.")]
         ++ footer_events)
        (Return tt).
Proof. intros Hk Hu. by rewrite (script_eq _ _ Hk), Hu. Qed.

Lemma no_upload_waits_witness :
  script env_no_upload
  = mkM (page_events
         ++ [st_info ([128194%N] ++ lit " Awaiting Excel file upload.")]
         ++ footer_events)
        (Return tt).
Proof. exact (no_upload_waits env_no_upload demo_key_file eq_refl eq_refl). Defined.

(** X4. A table that was read and shown but whose button is not clicked
    is only shown: when the calls for the preview and the widgets return,
    the run is the page, the preview and the questions box, and the footer;
    neither a sampling warning nor a request nor findings nor an error
    appear. *)
Theorem no_click_no_analysis E text file df :
  read_file E (lit "api_key.txt") = inr text ->
  uploaded_file E = Some file ->
  read_excel E file = inr df ->
  first_raise E (upload_events df) = None ->
  button E = false ->
  script E = mkM (page_events ++ upload_events df ++ footer_events) (Return tt).
Proof.
  intros Hk Hu Hx Hr Hb.
  rewrite (script_eq _ _ Hk), Hu, (uploaded_eq _ _ _ _ Hx Hr), Hb.
  cbn [events]. by rewrite app_nil_r.
Qed.

Lemma no_click_no_analysis_witness :
  script env_idle
  = mkM (page_events ++ upload_events demo_table ++ footer_events) (Return tt).
Proof.
  exact (no_click_no_analysis env_idle demo_key_file [] demo_table
           eq_refl eq_refl eq_refl eq_refl eq_refl).
Defined.

(** X20. A table that was read but that [st.dataframe] cannot show is
    reported as an error of reading the Excel file: after the message of
    the successful read the exception is logged and shown by the clause of
    line 126, the questions box and the button never appear, the service is
    not called, and the footer completes the page. *)
Theorem unshowable_table_reported E text file df e :
  read_file E (lit "api_key.txt") = inr text ->
  uploaded_file E = Some file ->
  read_excel E file = inr df ->
  st_raises E (st_success ([9989%N]
                 ++ lit " Excel file successfully uploaded and read!")) = None ->
  st_raises E (st_dataframe (head df head_default)) = Some e ->
  script E =
    mkM (page_events
         ++ [st_success ([9989%N] ++ lit " Excel file successfully uploaded and read!");
             logger_error (lit "Error reading the Excel file: " ++ exc_str e);
             st_error (CROSS ++ lit " Error reading the Excel file: " ++ exc_str e)]
         ++ footer_events)
        (Return tt).
Proof.
  intros Hk Hu Hx H1 H2.
  rewrite (script_eq _ _ Hk), Hu, (uploaded_cases _ _ _ _ Hx).
  unfold upload_events. cbn [first_raise rendered]. by rewrite H1, H2.
Qed.

Lemma unshowable_table_reported_witness :
  script env_unshowable =
    mkM (page_events
         ++ [st_success ([9989%N] ++ lit " Excel file successfully uploaded and read!");
             logger_error (lit "Error reading the Excel file: Could not convert column to Arrow");
             st_error (CROSS ++ lit " Error reading the Excel file: Could not convert column to Arrow")]
         ++ footer_events)
        (Return tt).
Proof.
  exact (unshowable_table_reported env_unshowable demo_key_file [] demo_table arrow_error
           eq_refl eq_refl eq_refl eq_refl eq_refl).
Defined.

(** ** The analysis *)

(** X5. An analysis always returns normally and shows one of two things
    after its request: the findings under their header when the service
    answered and the text of the first choice could be taken, or else the
    log record and the message of the one clause that handles the
    exception.  It never shows both and never shows neither. *)
Theorem analysis_outcome E key df q :
  analysis E key df q =
    mkM (events (df_sampled E df)
         ++ ChatCompletion_create key (chat_request (analysis_prompt E df q))
         :: match and_then (create E key (chat_request (analysis_prompt E df q)))
                           first_choice_text with
            | inr f => [st_header ([128269%N] ++ lit " Findings"); st_write f]
            | inl e => events (clause_handler (handling_clause (import_ok E) e) e)
            end)
        (Return tt).
Proof.
  destruct (and_then (create E key (chat_request (analysis_prompt E df q)))
                     first_choice_text) as [e|f] eqn:H.
  - by apply analysis_failure.
  - by apply analysis_success.
Qed.

(** X6. In one run the script calls the service at most once, and it
    does so exactly when the key file was read, a file was uploaded and
    parsed, the calls for the preview, the widgets and the spinner returned,
    and the button was clicked.  The call is made under the content of the
    key file with the surrounding whitespace removed, and its request is the
    one built from the parsed table and the questions in the box. *)
Theorem script_calls E :
  calls (events (script E)) =
    match read_file E (lit "api_key.txt"), uploaded_file E with
    | inr text, Some file =>
        match read_excel E file with
        | inr df =>
            match first_raise E (upload_events df), button E,
                  st_raises E spinner_event with
            | None, true, None =>
                [(strip text, chat_request (analysis_prompt E df (text_area E)))]
            | _, _, _ => []
            end
        | inl _ => []
        end
    | _, _ => []
    end.
Proof.
  destruct (read_file E (lit "api_key.txt")) as [e|text] eqn:Hk.
  - destruct (script_stops E e Hk) as [-> _].
    by rewrite (load_api_key_raise _ _ _ Hk).
  - rewrite (script_eq _ _ Hk). cbn [events]. rewrite !calls_app.
    change (calls page_events) with (@nil (str * request)).
    change (calls footer_events) with (@nil (str * request)).
    rewrite app_nil_r. cbn [app].
    destruct (uploaded_file E) as [file|]; [|reflexivity].
    apply uploaded_calls.
Qed.

(** ** Reading the response *)

Lemma getitem_str_dict v s x :
  getitem v (KStr s) = inr x <-> exists d, v = PDict d /\ dict_get d s = Some x.
Proof.
  split.
  - destruct v as [| | | |l|d]; simpl; try discriminate.
    destruct (dict_get d s) as [y|] eqn:Hd; [|discriminate].
    intros [= <-]. eauto.
  - intros (d & -> & Hd). simpl. by rewrite Hd.
Qed.

Lemma getitem_first_list v x :
  getitem v (KInt 0) = inr x ->
  (exists l, v = PList (x :: l)) \/ (exists c s, v = PStr (c :: s) /\ x = PStr [c]).
Proof.
  destruct v as [| | |s|l|d]; simpl; try discriminate.
  - destruct s as [|c s]; [discriminate|]. intros [= <-]. right. eauto.
  - destruct l as [|y l]; [discriminate|]. intros [= <-]. left. eauto.
Qed.

(** X7. The text of the first choice can be taken from a response exactly
    when the response is an object whose [choices] is a list with a first
    element that is an object whose [message] is an object whose [content]
    is a string; the text is then that string with the surrounding
    whitespace removed.  Every other shape of the response raises. *)
Theorem first_choice_text_shape response t :
  first_choice_text response = inr t <->
  exists d rest dc dm text,
    response = PDict d
    /\ dict_get d (lit "choices") = Some (PList (PDict dc :: rest))
    /\ dict_get dc (lit "message") = Some (PDict dm)
    /\ dict_get dm (lit "content") = Some (PStr text)
    /\ t = strip text.
Proof.
  unfold first_choice_text, and_then. split.
  - destruct (getitem response _) as [e|choices] eqn:H1; [discriminate|].
    destruct (getitem choices _) as [e|choice0] eqn:H2; [discriminate|].
    destruct (getitem choice0 _) as [e|msg] eqn:H3; [discriminate|].
    destruct (getitem msg _) as [e|text] eqn:H4; [discriminate|].
    apply getitem_str_dict in H1 as (d & -> & Hd).
    apply getitem_str_dict in H3 as (dc & -> & Hdc).
    apply getitem_str_dict in H4 as (dm & -> & Hdm).
    apply getitem_first_list in H2 as [[rest ->]|(c & s & _ & [=])].
    destruct text as [| | |s| |]; simpl; try discriminate.
    intros [= <-]. by exists d, rest, dc, dm, s.
  - intros (d & rest & dc & dm & text & -> & Hd & Hdc & Hdm & ->).
    simpl. rewrite Hd. simpl. rewrite Hdc. simpl. by rewrite Hdm.
Qed.

Lemma getitem_error_class v k e :
  getitem v k = inl e ->
  exc_type e = exc_KeyError \/ exc_type e = exc_IndexError \/ exc_type e = exc_TypeError.
Proof.
  destruct v as [| | |s|l|d], k as [s'|i]; simpl;
    repeat match goal with
           | |- context [match ?x with _ => _ end] => destruct x
           end;
    intros [= <-]; simpl; auto.
Qed.

Lemma first_choice_text_error_class response e :
  first_choice_text response = inl e ->
  exc_type e = exc_KeyError \/ exc_type e = exc_IndexError
  \/ exc_type e = exc_TypeError \/ exc_type e = exc_AttributeError.
Proof.
  unfold first_choice_text, and_then.
  destruct (getitem response _) as [e1|choices] eqn:H1.
  { intros [= <-]. apply getitem_error_class in H1. tauto. }
  destruct (getitem choices _) as [e2|choice0] eqn:H2.
  { intros [= <-]. apply getitem_error_class in H2. tauto. }
  destruct (getitem choice0 _) as [e3|msg] eqn:H3.
  { intros [= <-]. apply getitem_error_class in H3. tauto. }
  destruct (getitem msg _) as [e4|text] eqn:H4.
  { intros [= <-]. apply getitem_error_class in H4. tauto. }
  destruct text; simpl; intros [= <-]; simpl; auto.
Qed.

(** X8. A response of the wrong shape is never mistaken for a failure of
    the service when the error classes were imported: the exception raised
    while the text is taken is a [KeyError], an [IndexError], a [TypeError]
    or an [AttributeError], none of them an [OpenAIError], so the second
    clause handles it and the result is an unexpected error with the text of
    that exception. *)
Theorem shape_mismatch_unexpected E key p response e :
  import_ok E = true ->
  create E key (chat_request p) = inr response ->
  first_choice_text response = inl e ->
  isinstance e T_OpenAIError = false
  /\ handling_clause (import_ok E) e = clause_Exception
  /\ complete E key p = Some (Failure UnexpectedError (exc_str e)).
Proof.
  intros Hok Hc Hf.
  assert (isinstance e T_OpenAIError = false) as Hi.
  { unfold isinstance.
    destruct (first_choice_text_error_class _ _ Hf) as [->|[->|[->| ->]]]; done. }
  assert (handling_clause (import_ok E) e = clause_Exception) as Hh.
  { unfold handling_clause. rewrite Hok. simpl. by rewrite Hi. }
  repeat split; [done|done|].
  unfold complete. rewrite findings_eq, Hc. simpl. rewrite Hf. simpl.
  by rewrite Hh.
Qed.

Lemma shape_mismatch_unexpected_witness :
  complete (env_answer (inr (response_with [PDict [(lit "message", PDict [(lit "content", PNone)])]])))
           (lit "sk-test") (lit "p")
  = Some (Failure UnexpectedError (lit "'NoneType' object has no attribute 'strip'")).
Proof.
  exact (proj2 (proj2 (shape_mismatch_unexpected
    (env_answer (inr (response_with [PDict [(lit "message", PDict [(lit "content", PNone)])]])))
    (lit "sk-test") (lit "p")
    (response_with [PDict [(lit "message", PDict [(lit "content", PNone)])]])
    (mkExn exc_AttributeError (lit "'NoneType' object has no attribute 'strip'"))
    eq_refl eq_refl eq_refl))).
Defined.

(** ** Trimming, again *)

Lemma lstrip_spec s :
  exists pre, s = pre ++ lstrip s
              /\ forallb isspace pre = true
              /\ (forall c rest, lstrip s = c :: rest -> isspace c = false).
Proof.
  induction s as [|c s (pre & Hs & Hpre & Hhd)]; simpl.
  - by exists [].
  - destruct (isspace c) eqn:Hc.
    + exists (c :: pre). simpl. rewrite Hc, Hpre. repeat split; [by f_equal|done].
    + exists []. repeat split. by intros c' rest [= <- _].
Qed.

Lemma forallb_rev {A} (f : A -> bool) l : forallb f (rev l) = forallb f l.
Proof.
  induction l as [|a l IH]; [done|]. simpl.
  rewrite forallb_app, IH. simpl. rewrite andb_true_r. apply andb_comm.
Qed.

Lemma rstrip_spec s :
  exists post, s = rstrip s ++ post
               /\ forallb isspace post = true
               /\ (forall c rest, rstrip s = rest ++ [c] -> isspace c = false).
Proof.
  unfold rstrip. destruct (lstrip_spec (rev s)) as (pre & Hs & Hpre & Hhd).
  exists (rev pre). repeat split.
  - rewrite <- rev_app_distr, <- Hs. by rewrite rev_involutive.
  - by rewrite forallb_rev.
  - intros c rest H. apply (Hhd c (rev rest)).
    rewrite <- (rev_involutive (lstrip (rev s))), H, rev_app_distr. done.
Qed.

Lemma lstrip_head s c rest : lstrip s = c :: rest -> isspace c = false.
Proof. destruct (lstrip_spec s) as (_ & _ & _ & H). apply H. Qed.

Lemma rstrip_keeps_head s c rest :
  isspace c = false -> s = c :: rest -> exists rest', rstrip s = c :: rest'.
Proof.
  intros Hc ->. unfold rstrip. simpl.
  destruct (lstrip_spec (rev rest ++ [c])) as (pre & Hs & Hpre & _).
  assert (exists k, lstrip (rev rest ++ [c]) = k ++ [c]) as [k Hk].
  { destruct (lstrip (rev rest ++ [c])) as [|x l] eqn:Hl using rev_ind.
    - rewrite app_nil_r in Hs. rewrite <- Hs, forallb_app in Hpre. simpl in Hpre.
      rewrite Hc in Hpre. by rewrite andb_false_r in Hpre.
    - clear IHl. rewrite app_assoc in Hs. apply app_inj_tail in Hs as [_ <-]. eauto. }
  rewrite Hk, rev_app_distr. simpl. eauto.
Qed.

(** X9. The key that [load_api_key] returns is the content of the file
    without a run of whitespace at its start and one at its end, and with
    nothing else taken away: the content is whitespace, the key,
    whitespace; the key neither starts nor ends with a whitespace
    character, and what lies between is kept as it is. *)
Theorem load_api_key_trims E path text :
  read_file E path = inr text ->
  exists key pre post,
    load_api_key E path = mkM [] (Return key)
    /\ text = pre ++ key ++ post
    /\ forallb isspace pre = true
    /\ forallb isspace post = true
    /\ (forall c rest, key = c :: rest -> isspace c = false)
    /\ (forall c rest, key = rest ++ [c] -> isspace c = false).
Proof.
  intros H. destruct (lstrip_spec text) as (pre & Ht & Hpre & Hhd).
  destruct (rstrip_spec (lstrip text)) as (post & Hl & Hpost & Hlast).
  exists (strip text), pre, post. unfold strip in *.
  repeat split; try done.
  - by apply load_api_key_ok.
  - by rewrite <- Hl.
  - intros c rest Hk.
    destruct (lstrip text) as [|c' l] eqn:Hlt; [done|].
    pose proof (Hhd c' l eq_refl) as Hc'.
    destruct (rstrip_keeps_head (c' :: l) c' l Hc' eq_refl) as [rest' Hr].
    rewrite Hr in Hk. by injection Hk as <- _.
Qed.

Lemma load_api_key_trims_witness :
  exists key pre post,
    load_api_key (env_answer (inr (response_with []))) (lit "api_key.txt")
      = mkM [] (Return key)
    /\ demo_key_file = pre ++ key ++ post
    /\ forallb isspace pre = true
    /\ forallb isspace post = true
    /\ (forall c rest, key = c :: rest -> isspace c = false)
    /\ (forall c rest, key = rest ++ [c] -> isspace c = false).
Proof.
  exact (load_api_key_trims (env_answer (inr (response_with []))) (lit "api_key.txt")
           demo_key_file eq_refl).
Defined.

(** X10. An answer that is nothing but whitespace is no failure: the
    findings are the empty text, they are shown under their header, and no
    error is logged or shown. *)
Theorem blank_answer_shown E key df q response choice0 rest msg text :
  create E key (chat_request (analysis_prompt E df q)) = inr response ->
  getitem response (KStr (lit "choices")) = inr (PList (choice0 :: rest)) ->
  getitem choice0 (KStr (lit "message")) = inr msg ->
  getitem msg (KStr (lit "content")) = inr (PStr text) ->
  forallb isspace text = true ->
  analysis E key df q =
    mkM (events (df_sampled E df)
         ++ [ChatCompletion_create key (chat_request (analysis_prompt E df q));
             st_header ([128269%N] ++ lit " Findings");
             st_write []])
        (Return tt).
Proof.
  intros Hc Hg Hm Ht Hs. apply analysis_success. rewrite Hc. simpl.
  unfold first_choice_text. rewrite Hg. simpl. rewrite Hm. simpl. rewrite Ht. simpl.
  by rewrite (strip_all_space _ Hs).
Qed.

Lemma blank_answer_shown_witness :
  analysis (env_answer (inr (response_with [choice_with [32%N; LF]])))
           (lit "sk-test") demo_table (lit "Summarize.")
  = mkM [ChatCompletion_create (lit "sk-test")
           (chat_request (analysis_prompt
                            (env_answer (inr (response_with [choice_with [32%N; LF]])))
                            demo_table (lit "Summarize.")));
         st_header ([128269%N] ++ lit " Findings");
         st_write []]
        (Return tt).
Proof.
  exact (blank_answer_shown (env_answer (inr (response_with [choice_with [32%N; LF]])))
           (lit "sk-test") demo_table (lit "Summarize.")
           (response_with [choice_with [32%N; LF]])
           (choice_with [32%N; LF]) []
           (PDict [(lit "role", PStr (lit "assistant")); (lit "content", PStr [32%N; LF])])
           [32%N; LF] eq_refl eq_refl eq_refl eq_refl eq_refl).
Defined.

(** ** The CSV text *)

Lemma to_csv_cell_values lineterminator df :
  to_csv lineterminator df
  = concat (map (writerow lineterminator) (cell_values df)).
Proof.
  unfold to_csv, cell_values, header_line. simpl. f_equal.
  by rewrite map_map.
Qed.

Lemma cr_quoted_quoted_if_cr lineterminator f :
  cr_quoted lineterminator f -> quoted_if_cr lineterminator f.
Proof.
  intros H Hf. unfold needs_quotes. apply existsb_exists. exists CR. split.
  - by apply list_elem_of_In.
  - unfold is_special. rewrite (bool_decide_eq_true_2 _ (H Hf)).
    by rewrite orb_true_r.
Qed.

Lemma cr_quoted_table lineterminator (texts : list (list str)) :
  Forall (Forall (cr_quoted lineterminator)) texts ->
  Forall (Forall (quoted_if_cr lineterminator)) texts.
Proof.
  apply Forall_impl. intros r. apply Forall_impl. intros f.
  apply cr_quoted_quoted_if_cr.
Qed.

Lemma parse_csv_cell_values lineterminator df :
  lineterminator = [LF] \/ lineterminator = [CR; LF] ->
  Forall (Forall (quoted_if_cr lineterminator)) (cell_values df) ->
  parse_csv (to_csv lineterminator df) = cell_values df.
Proof.
  intros Hlt H. rewrite to_csv_cell_values. unfold parse_csv.
  rewrite (feed_rows _ Hlt _ _ H). unfold finish. cbn [state records].
  by rewrite app_nil_r, rev_involutive.
Qed.

(** X11. The CSV text keeps the texts of the cells and nothing else of
    them.  Where the line terminator is the line feed or the pair of
    carriage return and line feed, two tables without a carriage return that
    the line terminator lacks are written to the same text exactly when
    they have the same column labels and, row by row, the same cell texts:
    a missing value and an empty text, or a number and its digits as text,
    are written alike, and no two different texts are. *)
Theorem to_csv_same_text lineterminator df1 df2 :
  lineterminator = [LF] \/ lineterminator = [CR; LF] ->
  Forall (Forall (cr_quoted lineterminator)) (cell_values df1) ->
  Forall (Forall (cr_quoted lineterminator)) (cell_values df2) ->
  to_csv lineterminator df1 = to_csv lineterminator df2
  <-> cell_values df1 = cell_values df2.
Proof.
  intros Hlt H1 H2. split; intros H.
  - rewrite <- (parse_csv_cell_values _ _ Hlt (cr_quoted_table _ _ H1)),
            <- (parse_csv_cell_values _ _ Hlt (cr_quoted_table _ _ H2)).
    by rewrite H.
  - by rewrite !to_csv_cell_values, H.
Qed.

Lemma to_csv_same_text_witness :
  to_csv [LF] (mkDataFrame [lit "qty"] [[CBlank]; [CInt 3]])
  = to_csv [LF] (mkDataFrame [lit "qty"] [[CStr []]; [CStr (lit "3")]]).
Proof.
  apply (to_csv_same_text [LF] (mkDataFrame [lit "qty"] [[CBlank]; [CInt 3]])
           (mkDataFrame [lit "qty"] [[CStr []]; [CStr (lit "3")]])).
  - by left.
  - apply (bool_decide_unpack _). by vm_compute.
  - apply (bool_decide_unpack _). by vm_compute.
  - reflexivity.
Defined.

(** X12. With the line terminator of Windows, the pair of carriage
    return and line feed, every table is read back from its CSV text as it
    was written, carriage returns in its cells included. *)
Theorem to_csv_round_trip_crlf df :
  parse_csv (to_csv [CR; LF] df) = cell_values df.
Proof.
  apply parse_csv_cell_values; [by right|]. apply cr_quoted_table.
  apply Forall_forall. intros r _. apply Forall_forall. intros f _ _.
  by apply list_elem_of_here.
Qed.

Lemma sampled_table_rows E df r :
  r ∈ rows (sampled_table E df) -> r ∈ rows df.
Proof.
  unfold sampled_table. destruct (500 <? len df) eqn:H; [|done].
  apply Nat.ltb_lt in H.
  destruct (sample_spec (rng E) df 500) as (_ & _ & _ & _ & Hsub); [lia|].
  intros Hr. by eapply elem_of_submseteq.
Qed.

Lemma sampled_table_len E df : len (sampled_table E df) = Nat.min 500 (len df).
Proof.
  unfold sampled_table. destruct (500 <? len df) eqn:H.
  - apply Nat.ltb_lt in H.
    destruct (sample_spec (rng E) df 500) as (locs & Hlen & _ & Hrows & _); [lia|].
    apply Forall2_length in Hrows. unfold len in *. lia.
  - apply Nat.ltb_ge in H. lia.
Qed.

Lemma sampled_table_columns E df : columns (sampled_table E df) = columns df.
Proof. unfold sampled_table. by destruct (500 <? len df). Qed.

(** X13. The data in the prompt of an analysis is bounded.  Where the
    line terminator is the line feed or the pair of carriage return and line
    feed and every text of the parsed table that holds a carriage return is
    one the writer quotes, the CSV text that goes into the prompt reads back
    as the column labels followed by [min 500 (len df)] rows, each the cell
    texts of a row of the parsed table: never more than 501 records,
    whatever the size of the upload. *)
Theorem prompt_csv_bounded E df :
  linesep E = [LF] \/ linesep E = [CR; LF] ->
  Forall (Forall (quoted_if_cr (linesep E))) (cell_values df) ->
  exists sent,
    parse_csv (to_csv (linesep E) (sampled_table E df)) = columns df :: sent
    /\ length sent = Nat.min 500 (len df)
    /\ (forall texts, texts ∈ sent ->
                      exists r, r ∈ rows df /\ texts = map cell_text r).
Proof.
  intros Hlt H. pose proof (Forall_inv H) as Hh. pose proof (Forall_inv_tail H) as Hr.
  exists (map (map cell_text) (rows (sampled_table E df))). repeat split.
  - rewrite parse_csv_cell_values; [|done|].
    + unfold cell_values. by rewrite sampled_table_columns.
    + unfold cell_values. rewrite sampled_table_columns. constructor; [done|].
      apply Forall_forall. intros texts (r & <- & Hin%list_elem_of_In%sampled_table_rows)%in_map_iff.
      rewrite Forall_forall in Hr. apply Hr, in_map. by apply list_elem_of_In.
  - rewrite length_map. apply sampled_table_len.
  - intros texts (r & <- & Hin%list_elem_of_In%sampled_table_rows)%list_elem_of_In%in_map_iff.
    eauto.
Qed.

(** A table of 501 rows whose first cell holds a carriage return next to a
    comma. *)
Lemma prompt_csv_bounded_witness :
  exists sent,
    parse_csv (to_csv (linesep env_week)
                 (sampled_table env_week
                    (mkDataFrame [lit "n"]
                       ([CStr ([CR] ++ lit ",")] :: rows big_table))))
      = [lit "n"] :: sent
    /\ length sent = Nat.min 500 (S (len big_table))
    /\ (forall texts, texts ∈ sent ->
          exists r, r ∈ [CStr ([CR] ++ lit ",")] :: rows big_table
                    /\ texts = map cell_text r).
Proof.
  apply (prompt_csv_bounded env_week
           (mkDataFrame [lit "n"] ([CStr ([CR] ++ lit ",")] :: rows big_table))).
  - by left.
  - apply (bool_decide_unpack _). by vm_compute.
Defined.

(** ** Runs with an analysis *)

(** X14. When the button is clicked for a table that was read and that
    the page could show (none of the Streamlit calls of lines 67-80
    raises), the run is the page, the preview and the questions box, the
    spinner, the analysis of that table under the trimmed key with the
    questions of the box, and the footer.  Whatever the analysis meets, the
    footer follows it and the run ends normally. *)
Theorem clicked_run E text file df :
  read_file E (lit "api_key.txt") = inr text ->
  uploaded_file E = Some file ->
  read_excel E file = inr df ->
  first_raise E (upload_events df) = None ->
  button E = true ->
  st_raises E spinner_event = None ->
  script E =
    mkM (page_events ++ upload_events df
         ++ st_spinner ([128269%N] ++ lit " Processing...")
            :: events (analysis E (strip text) df (text_area E))
         ++ footer_events)
        (Return tt).
Proof.
  intros Hk Hu Hx Hr Hb Hs.
  rewrite (script_eq _ _ Hk), Hu, (uploaded_eq _ _ _ _ Hx Hr), Hb, Hs.
  reflexivity.
Qed.

Lemma clicked_run_witness :
  script (env_answer (inl auth_error)) =
    mkM (page_events ++ upload_events demo_table
         ++ st_spinner ([128269%N] ++ lit " Processing...")
            :: events (analysis (env_answer (inl auth_error)) (strip demo_key_file)
                                demo_table (text_area (env_answer (inl auth_error))))
         ++ footer_events)
        (Return tt).
Proof.
  exact (clicked_run (env_answer (inl auth_error)) demo_key_file [] demo_table
           eq_refl eq_refl eq_refl eq_refl eq_refl eq_refl).
Defined.

(** X15. End to end: for a table of at most 500 rows that the page
    could show (none of the Streamlit calls of lines 67-80 raises), a click
    and an answer whose first choice holds a text, the run shows the page,
    the preview and the questions box, the spinner, no sampling warning,
    sends the one request whose prompt is built from the whole table, and
    shows the answer without its surrounding whitespace under the header of
    the findings, then the footer. *)
Theorem successful_run E text file df response choice0 rest msg answer :
  read_file E (lit "api_key.txt") = inr text ->
  uploaded_file E = Some file ->
  read_excel E file = inr df ->
  first_raise E (upload_events df) = None ->
  button E = true ->
  st_raises E spinner_event = None ->
  len df <= 500 ->
  create E (strip text)
         (chat_request (prompt (to_csv (linesep E) df) (text_area E))) = inr response ->
  getitem response (KStr (lit "choices")) = inr (PList (choice0 :: rest)) ->
  getitem choice0 (KStr (lit "message")) = inr msg ->
  getitem msg (KStr (lit "content")) = inr (PStr answer) ->
  script E =
    mkM (page_events ++ upload_events df
         ++ [st_spinner ([128269%N] ++ lit " Processing...");
             ChatCompletion_create (strip text)
               (chat_request (prompt (to_csv (linesep E) df) (text_area E)));
             st_header ([128269%N] ++ lit " Findings");
             st_write (strip answer)]
         ++ footer_events)
        (Return tt).
Proof.
  intros Hk Hu Hx Hr Hb Hs Hlen Hc Hg Hm Ht.
  assert (analysis_prompt E df (text_area E)
          = prompt (to_csv (linesep E) df) (text_area E)) as Hp.
  { unfold analysis_prompt, sampled_table. by rewrite (proj2 (Nat.ltb_ge _ _) Hlen). }
  rewrite (script_eq _ _ Hk), Hu, (uploaded_eq _ _ _ _ Hx Hr), Hb, Hs.
  rewrite (analysis_success E (strip text) df (text_area E) (strip answer)).
  - rewrite df_sampled_eq, (proj2 (Nat.ltb_ge _ _) Hlen), Hp. reflexivity.
  - rewrite Hp, Hc. simpl. unfold first_choice_text.
    rewrite Hg. simpl. rewrite Hm. simpl. by rewrite Ht.
Qed.

Lemma successful_run_witness :
  script (env_answer (inr (response_with [choice_with ([LF] ++ lit "Summary text. ")])))
  = mkM (page_events ++ upload_events demo_table
         ++ [st_spinner ([128269%N] ++ lit " Processing...");
             ChatCompletion_create (lit "sk-test")
               (chat_request (prompt (to_csv [LF] demo_table) (lit "Summarize.")));
             st_header ([128269%N] ++ lit " Findings");
             st_write (lit "Summary text.")]
         ++ footer_events)
        (Return tt).
Proof.
  refine (successful_run
            (env_answer (inr (response_with [choice_with ([LF] ++ lit "Summary text. ")])))
            demo_key_file [] demo_table
            (response_with [choice_with ([LF] ++ lit "Summary text. ")])
            (choice_with ([LF] ++ lit "Summary text. ")) []
            (PDict [(lit "role", PStr (lit "assistant"));
                    (lit "content", PStr ([LF] ++ lit "Summary text. "))])
            ([LF] ++ lit "Summary text. ")
            eq_refl eq_refl eq_refl eq_refl eq_refl eq_refl _
            eq_refl eq_refl eq_refl eq_refl).
  unfold len. simpl. lia.
Defined.

Lemma log_excel_neq_api (a b : str) :
  logger_error (lit "OpenAI API error: " ++ a)
  <> logger_error (lit "Error reading the Excel file: " ++ b).
Proof. discriminate. Qed.

Lemma log_excel_neq_unexpected (a b : str) :
  logger_error (lit "Unexpected error: " ++ a)
  <> logger_error (lit "Error reading the Excel file: " ++ b).
Proof. discriminate. Qed.

Lemma analysis_no_excel_error E key df q detail :
  logger_error (lit "Error reading the Excel file: " ++ detail)
  ∉ events (analysis E key df q).
Proof.
  intros Hin.
  destruct (and_then (create E key (chat_request (analysis_prompt E df q)))
                     first_choice_text) as [e|f] eqn:H.
  - rewrite (analysis_failure _ _ _ _ _ H), df_sampled_eq in Hin. cbn [events] in Hin.
    apply elem_of_app in Hin as [Hin|Hin].
    { destruct (500 <? len df);
        repeat (apply elem_of_cons in Hin as [Heq|Hin]; [discriminate Heq|]);
        by apply elem_of_nil in Hin. }
    apply elem_of_cons in Hin as [Heq|Hin]; [discriminate Heq|].
    destruct (handling_clause _ _); simpl in Hin;
      apply elem_of_cons in Hin as [Heq|Hin];
      try (apply elem_of_cons in Hin as [Heq'|Hin]; [discriminate Heq'|];
           by apply elem_of_nil in Hin).
    + symmetry in Heq. by apply log_excel_neq_api in Heq.
    + symmetry in Heq. by apply log_excel_neq_unexpected in Heq.
  - rewrite (analysis_success _ _ _ _ _ H), df_sampled_eq in Hin. cbn [events] in Hin.
    apply elem_of_app in Hin as [Hin|Hin];
      [destruct (500 <? len df)|];
      repeat (apply elem_of_cons in Hin as [Heq|Hin]; [discriminate Heq|]);
      by apply elem_of_nil in Hin.
Qed.

Lemma upload_events_no_log df m : logger_error m ∉ upload_events df.
Proof.
  intros Hin. unfold upload_events in Hin.
  repeat (apply elem_of_cons in Hin as [Heq|Hin]; [discriminate Heq|]).
  by apply elem_of_nil in Hin.
Qed.

Lemma excel_report_log e detail :
  logger_error (lit "Error reading the Excel file: " ++ detail) ∈ excel_report e ->
  detail = exc_str e.
Proof.
  unfold excel_report. intros [Heq|Hin]%elem_of_cons.
  - by injection Heq.
  - apply elem_of_cons in Hin as [Heq|Hin]; [discriminate Heq|].
    by apply elem_of_nil in Hin.
Qed.

(** X16. A failure of the analysis is never reported as a failure to
    read the spreadsheet.  A run logs the error about reading the Excel file
    only for an exception that escaped the analysis: the one [read_excel]
    raised, or the one a Streamlit call of lines 67-80 raised for a table
    that was read (the first of the preview and the widgets, or the
    spinner).  The record carries the text of that exception, and such a
    run made no call of the service. *)
Theorem analysis_failure_not_excel_error E key file detail :
  logger_error (lit "Error reading the Excel file: " ++ detail)
  ∈ events (uploaded E key file) ->
  calls (events (uploaded E key file)) = []
  /\ exists e,
       detail = exc_str e
       /\ (read_excel E file = inl e
           \/ exists df,
                read_excel E file = inr df
                /\ (first_raise E (upload_events df) = Some e
                    \/ first_raise E (upload_events df) = None
                       /\ button E = true
                       /\ st_raises E spinner_event = Some e)).
Proof.
  intros Hin. rewrite uploaded_calls.
  destruct (read_excel E file) as [e|df] eqn:Hx.
  - rewrite (uploaded_raise _ _ _ _ Hx) in Hin. cbn [events] in Hin.
    split; [done|]. exists e. split; [by apply excel_report_log|by left].
  - rewrite (uploaded_cases _ _ _ _ Hx) in Hin. cbn [events] in Hin.
    destruct (first_raise E (upload_events df)) as [e|] eqn:Hr.
    + split; [done|]. exists e. split; [|right; exists df; split; [done|by left]].
      apply elem_of_app in Hin as [Hin|Hin]; [|by apply excel_report_log].
      apply rendered_elem in Hin. by apply upload_events_no_log in Hin.
    + apply elem_of_app in Hin as [Hin|Hin]; [by apply upload_events_no_log in Hin|].
      destruct (button E); [|by apply elem_of_nil in Hin].
      destruct (st_raises E spinner_event) as [e|] eqn:Hs.
      * split; [done|]. exists e. split; [by apply excel_report_log|].
        right. exists df. split; [done|]. right. done.
      * apply elem_of_cons in Hin as [Heq|Hin]; [discriminate Heq|].
        by apply analysis_no_excel_error in Hin.
Qed.

(** The demonstration table under a page that cannot show it: the error of
    the preview is the one logged, and no call is made although the button
    is clicked. *)
Lemma analysis_failure_not_excel_error_witness :
  calls (events (uploaded env_unshowable (lit "sk-test") [])) = []
  /\ exists e,
       exc_str arrow_error = exc_str e
       /\ (read_excel env_unshowable [] = inl e
           \/ exists df,
                read_excel env_unshowable [] = inr df
                /\ (first_raise env_unshowable (upload_events df) = Some e
                    \/ first_raise env_unshowable (upload_events df) = None
                       /\ button env_unshowable = true
                       /\ st_raises env_unshowable spinner_event = Some e)).
Proof.
  apply (analysis_failure_not_excel_error env_unshowable (lit "sk-test") []
           (exc_str arrow_error)).
  vm_compute. repeat constructor.
Defined.

(** ** What sampling leaves out *)

(** X17. Sampling splits a table of more than 500 rows: the 500 rows
    that are kept together with [len df - 500] rows that are left out are,
    up to their order, exactly the rows of the table.  No row is kept more
    often than the table holds it and none is invented. *)
Theorem sample_splits_table E df :
  500 < len df ->
  exists left_out,
    length left_out = len df - 500
    /\ rows df ≡ₚ rows (sampled_table E df) ++ left_out.
Proof.
  intros H. unfold sampled_table. rewrite (proj2 (Nat.ltb_lt _ _) H).
  destruct (sample_spec (rng E) df 500) as (locs & Hlen & _ & Hrows & Hsub); [lia|].
  apply submseteq_Permutation in Hsub as [left_out Hp].
  exists left_out. split; [|done].
  apply Permutation_length in Hp. rewrite length_app in Hp.
  apply Forall2_length in Hrows. unfold len in *. lia.
Qed.

Lemma sample_splits_table_witness :
  exists left_out,
    length left_out = len big_table - 500
    /\ rows big_table
       ≡ₚ rows (sampled_table (env_answer (inr (response_with []))) big_table) ++ left_out.
Proof.
  apply (sample_splits_table (env_answer (inr (response_with []))) big_table).
  unfold len, big_table. cbn [rows]. rewrite length_map, length_seq. lia.
Defined.

(** ** What is shown *)

Lemma first_choice_text_stripped response t :
  first_choice_text response = inr t -> exists text, t = strip text.
Proof.
  unfold first_choice_text, and_then.
  destruct (getitem response _) as [e|choices]; [discriminate|].
  destruct (getitem choices _) as [e|choice0]; [discriminate|].
  destruct (getitem choice0 _) as [e|msg]; [discriminate|].
  destruct (getitem msg _) as [e|text]; [discriminate|].
  destruct text as [| | |s| |]; simpl; try discriminate.
  intros [= <-]. eauto.
Qed.

Lemma strip_ends text :
  (forall c rest, strip text = c :: rest -> isspace c = false)
  /\ (forall c rest, strip text = rest ++ [c] -> isspace c = false).
Proof.
  destruct (rstrip_spec (lstrip text)) as (post & Hl & Hpost & Hlast).
  unfold strip. split; [|done].
  intros c rest Hk.
  destruct (lstrip text) as [|c' l] eqn:Hlt; [done|].
  pose proof (lstrip_head _ _ _ Hlt) as Hc'.
  destruct (rstrip_keeps_head (c' :: l) c' l Hc' eq_refl) as [rest' Hr].
  rewrite Hr in Hk. by injection Hk as <- _.
Qed.

(** X18. Findings are shown trimmed: whatever an analysis writes under
    the header of the findings neither starts nor ends with a whitespace
    character. *)
Theorem findings_shown_trimmed E key df q f :
  st_write f ∈ events (analysis E key df q) ->
  (forall c rest, f = c :: rest -> isspace c = false)
  /\ (forall c rest, f = rest ++ [c] -> isspace c = false).
Proof.
  intros Hin.
  destruct (and_then (create E key (chat_request (analysis_prompt E df q)))
                     first_choice_text) as [e|t] eqn:H.
  - exfalso. rewrite (analysis_failure _ _ _ _ _ H), df_sampled_eq in Hin.
    cbn [events] in Hin. apply elem_of_app in Hin as [Hin|Hin].
    { destruct (500 <? len df);
        repeat (apply elem_of_cons in Hin as [Heq|Hin]; [discriminate Heq|]);
        by apply elem_of_nil in Hin. }
    apply elem_of_cons in Hin as [Heq|Hin]; [discriminate Heq|].
    destruct (handling_clause _ _); simpl in Hin;
      repeat (apply elem_of_cons in Hin as [Heq|Hin]; [discriminate Heq|]);
      by apply elem_of_nil in Hin.
  - assert (f = t) as ->.
    { rewrite (analysis_success _ _ _ _ _ H), df_sampled_eq in Hin.
      cbn [events] in Hin. apply elem_of_app in Hin as [Hin|Hin].
      { destruct (500 <? len df);
          repeat (apply elem_of_cons in Hin as [Heq|Hin]; [discriminate Heq|]);
          by apply elem_of_nil in Hin. }
      apply elem_of_cons in Hin as [Heq|Hin]; [discriminate Heq|].
      apply elem_of_cons in Hin as [Heq|Hin]; [discriminate Heq|].
      apply elem_of_cons in Hin as [Heq|Hin]; [by injection Heq|].
      by apply elem_of_nil in Hin. }
    destruct (create E key _) as [e|response]; [discriminate|]. simpl in H.
    destruct (first_choice_text_stripped _ _ H) as [text ->].
    apply strip_ends.
Qed.

Lemma findings_shown_trimmed_witness :
  (forall c rest, lit "Summary text." = c :: rest -> isspace c = false)
  /\ (forall c rest, lit "Summary text." = rest ++ [c] -> isspace c = false).
Proof.
  apply (findings_shown_trimmed
           (env_answer (inr (response_with [choice_with ([LF] ++ lit "Summary text. ")])))
           (lit "sk-test") demo_table (lit "Summarize.") (lit "Summary text.")).
  vm_compute. repeat constructor.
Defined.

Lemma shown_errors_app t1 t2 :
  shown_errors (t1 ++ t2) = shown_errors t1 ++ shown_errors t2.
Proof. unfold shown_errors. apply omap_app. Qed.

Lemma logged_errors_app t1 t2 :
  logged_errors (t1 ++ t2) = logged_errors t1 ++ logged_errors t2.
Proof. unfold logged_errors. apply omap_app. Qed.

Lemma rendered_errors E df :
  shown_errors (rendered E (upload_events df)) = []
  /\ logged_errors (rendered E (upload_events df)) = [].
Proof.
  unfold upload_events. cbn [rendered].
  repeat match goal with
         | |- context [match st_raises E ?ev with _ => _ end] =>
             destruct (st_raises E ev)
         end; by split.
Qed.

Lemma analysis_errors E key df q :
  length (shown_errors (events (analysis E key df q))) <= 1
  /\ length (logged_errors (events (analysis E key df q)))
     = length (shown_errors (events (analysis E key df q))).
Proof.
  destruct (and_then (create E key (chat_request (analysis_prompt E df q)))
                     first_choice_text) as [e|t] eqn:H.
  - rewrite (analysis_failure _ _ _ _ _ H), df_sampled_eq. cbn [events].
    rewrite shown_errors_app, logged_errors_app.
    destruct (500 <? len df), (handling_clause _ _); simpl; lia.
  - rewrite (analysis_success _ _ _ _ _ H), df_sampled_eq. cbn [events].
    rewrite shown_errors_app, logged_errors_app.
    destruct (500 <? len df); simpl; lia.
Qed.

(** X19. A run shows at most one error message.  When the key file was
    read, every error that is shown was also logged and every error that
    was logged is shown: the run holds as many error records in the log as
    error messages on the page. *)
Theorem errors_shown_once E :
  length (shown_errors (events (script E))) <= 1
  /\ (forall text, read_file E (lit "api_key.txt") = inr text ->
        length (logged_errors (events (script E)))
        = length (shown_errors (events (script E)))).
Proof.
  destruct (read_file E (lit "api_key.txt")) as [e|text] eqn:Hk.
  - destruct (script_stops E e Hk) as [-> _].
    rewrite (load_api_key_raise _ _ _ Hk). split; [simpl; lia|discriminate].
  - assert (length (shown_errors (events (script E))) <= 1
            /\ length (logged_errors (events (script E)))
               = length (shown_errors (events (script E)))) as [H1 H2]; [|by split].
    rewrite (script_eq _ _ Hk). cbn [events].
    rewrite !shown_errors_app, !logged_errors_app, !length_app.
    change (shown_errors page_events) with (@nil str).
    change (shown_errors footer_events) with (@nil str).
    change (logged_errors page_events) with (@nil str).
    change (logged_errors footer_events) with (@nil str).
    cbn [length]. rewrite !Nat.add_0_r.
    destruct (uploaded_file E) as [file|]; [|simpl; lia].
    destruct (read_excel E file) as [e|df] eqn:Hx.
    + rewrite (uploaded_raise _ _ _ _ Hx). simpl. lia.
    + rewrite (uploaded_cases _ _ _ _ Hx). cbn [events].
      destruct (first_raise E (upload_events df)) as [e|];
        rewrite shown_errors_app, logged_errors_app, !length_app.
      { destruct (rendered_errors E df) as [-> ->]. simpl. lia. }
      change (shown_errors (upload_events df)) with (@nil str).
      change (logged_errors (upload_events df)) with (@nil str).
      destruct (button E); [|simpl; lia].
      destruct (st_raises E spinner_event) as [e|]; [simpl; lia|].
      change (shown_errors (spinner_event :: ?t)) with (shown_errors t).
      change (logged_errors (spinner_event :: ?t)) with (logged_errors t).
      pose proof (analysis_errors E (strip text) df (text_area E)) as [Ha Hb].
      simpl. lia.
Qed.

Lemma errors_shown_once_witness :
  length (logged_errors (events (script (env_answer (inl auth_error)))))
  = length (shown_errors (events (script (env_answer (inl auth_error))))).
Proof.
  exact (proj2 (errors_shown_once (env_answer (inl auth_error))) demo_key_file eq_refl).
Defined.
